(** * PolyArt: the low-poly generation pipeline of [services/lowpoly.ts]

    A shallow embedding of the generation service and the properties its
    specification states about it.

    Number model.  A JavaScript [number] is an IEEE double; here a finite
    double is read as the rational it denotes ([Q]) and every arithmetic
    operation is exact, where the source rounds each result to the nearest
    double.  The two readings part where a rounded result is compared
    with a threshold or turned into an integer and the exact value sits
    within an ulp of the boundary; each such place is named at the
    definition, and the properties stated about it are those that hold
    for either reading.  Values the code keeps integral (canvas sizes,
    pixel bytes, array indices, triangle ids) are [Z].  [NaN] and the
    infinities have no counterpart: every place where the source can
    produce one is pointed out where it is modelled.  The library
    functions the source calls on non-rational values ([Math.sqrt] of a
    non-square, [Math.sin], [Math.cos], [Math.PI]), the canvas, [d3.lab] and
    [d3.Delaunay] are fields of a [Platform] record. *)

From Stdlib Require Import ZArith QArith Qround Qabs Qminmax Qreduction.
From Stdlib Require Import List Finite Bool String Lia Lqa.
Import ListNotations.

Open Scope Z_scope.

(** ** JavaScript's [Math] on exact numbers *)

Module JsMath.

Definition floor (q : Q) : Z := Qfloor q.
Definition ceil (q : Q) : Z := Qceiling q.

(** [Math.round] rounds half-way cases towards plus infinity. *)
Definition round (q : Q) : Z := Qfloor (q + (1 # 2))%Q.

Definition min (a b : Q) : Q := Qmin a b.
Definition max (a b : Q) : Q := Qmax a b.
Definition min3 (a b c : Q) : Q := Qmin (Qmin a b) c.
Definition max3 (a b c : Q) : Q := Qmax (Qmax a b) c.
Definition abs (q : Q) : Q := Qabs q.

(** [Math.ceil(Math.sqrt(q))] for [q >= 0]: the least [k] with [k*k >= q].
    No call of the pipeline reaches it with a negative argument and a
    finite result ([Math.sqrt] of a negative number is [NaN]). *)
Definition ceil_sqrt (q : Q) : Z := Z.sqrt_up (Qceiling q).

(** [Math.ceil(Math.sqrt(n) / 2)] for an integer [n >= 0]. *)
Definition ceil_half_sqrt (n : Z) : Z := (Z.sqrt_up n + 1) / 2.

(** Rounding to the nearest integer, ties to the even one: the conversion
    a [Uint8ClampedArray] applies to a stored number, after clamping. *)
Definition round_half_even (q : Q) : Z :=
  let f := Qfloor q in
  match ((q - inject_Z f) ?= (1 # 2))%Q with
  | Lt => f
  | Gt => f + 1
  | Eq => if Z.even f then f else f + 1
  end.

(** The comparison [a < b] of two finite numbers. *)
Definition ltb (a b : Q) : bool := negb (Qle_bool b a).

Definition toUint8Clamped (q : Q) : Z :=
  if Qle_bool q 0 then 0
  else if Qle_bool 255 q then 255
  else round_half_even q.

End JsMath.

(** ** Exceptions and loops

    [generateLowPolyData] runs inside [try { ... } catch (e) { reject(e) }]:
    a thrown exception becomes the rejection of the promise.  The one
    unbounded loop of the service (the Poisson-disc sampler's [while]) is
    run on fuel; [OutOfFuel] says that the fuel did not suffice. *)

Inductive result (A : Type) : Type :=
| Ok (a : A)
| Throw (msg : string)
| OutOfFuel.
Arguments Ok {A} a.
Arguments Throw {A} msg.
Arguments OutOfFuel {A}.

Definition bind {A B : Type} (r : result A) (k : A -> result B) : result B :=
  match r with
  | Ok a => k a
  | Throw m => Throw m
  | OutOfFuel => OutOfFuel
  end.

Notation "x <- r ;; k" := (bind r (fun x => k))
  (at level 61, r at next level, right associativity).

(** ** Types ([types.ts]) *)

Inductive Sampler := GRID | POISSON | EDGE_AWARE.
Inductive ColorSpace := RGB | LAB.

Record Settings := {
  maxSize : Z;
  points : Z;
  sampler : Sampler;
  seed : Q;
  edgeWeight : Q;
  colorSpace : ColorSpace;
  withNeighbors : bool;
  previewOutline : bool;
  showPointIds : bool
}.

Definition Point : Type := Q * Q.
Definition Vertices : Type := Point * Point * Point.

(** A colour triple as the code returns it: three numbers, or [None] when a
    channel is [undefined] or [NaN] (a pixel read outside the buffer). *)
Definition Color : Type := option (Z * Z * Z).

Record Triangle := {
  id : Z;
  vertices : Vertices;
  centroid : Point;
  area_px : Q;
  avg_color : Color;
  neighbors : list Z
}.

Record ImageInfo := {
  out_width : Z;
  out_height : Z;
  source : string
}.

Record Params := {
  p_sampler : Sampler;
  p_points : Z;
  p_seed : Q;
  p_color_space : ColorSpace
}.

Record LowPolyOutput := {
  version : string;
  image : ImageInfo;
  params : Params;
  triangles : list Triangle
}.

(** The browser's [ImageData]: [data] holds [4 * width * height] bytes. *)
Record ImageData := {
  width : Z;
  height : Z;
  data : list Z
}.

(** An [HTMLImageElement]: its intrinsic size and an opaque picture. *)
Record HTMLImageElement := {
  img_width : Z;
  img_height : Z;
  picture : list Z
}.

(** What [d3.Delaunay.from(points)] gives: the triangle polygons and the
    [neighbors] method. *)
Record Delaunay := {
  trianglePolygons : list Vertices;
  delaunay_neighbors : Z -> list Z
}.

(** ** The platform: everything the service calls and does not define *)

Record Platform := {
  Math_sqrt : Q -> Q;
  Math_sin : Q -> Q;
  Math_cos : Q -> Q;
  Math_PI : Q;
  (** [canvas.getContext('2d', ...)] returned a context *)
  getContext : bool;
  (** [ctx.drawImage(image, 0, 0, w, h)] followed by
      [ctx.getImageData(0, 0, w, h)]: the bytes read back, or [None] when
      the browser throws *)
  drawAndRead : HTMLImageElement -> Z -> Z -> option (list Z);
  (** [d3.lab(d3.rgb(r, g, b))] as the triple [(l, a, b)] *)
  d3_lab : Z -> Z -> Z -> Q * Q * Q;
  (** [d3.lab(l, a, b).rgb()] as the triple [(r, g, b)] *)
  d3_lab_rgb : Q -> Q -> Q -> Q * Q * Q;
  d3_Delaunay_from : list Point -> Delaunay
}.

(** ** The seeded generator ([createPRNG])

    The closure keeps [s]; one call maps the state [s] to the new state
    [Math.sin(s) * 10000] and returns its fractional part. *)

Definition createPRNG (P : Platform) (s : Q) : Q * Q :=
  let s' := (Math_sin P s * 10000)%Q in
  ((s' - inject_Z (JsMath.floor s'))%Q, s').

(** ** Image and canvas utilities ([getScaledImageData]) *)

(** The size computation of [getScaledImageData].

    The source rounds the double [other * (maxSize / larger)]; the model
    rounds the exact [other * maxSize / larger].  When that number is a
    half-integer the double product can fall just below it and the source
    then takes the integer below (145 x 232 at 100: 62 for 62.5; 98 x 49
    at 1: 0 for 0.5) where the model takes the one above.  As long as
    [other * maxSize < 2 ^ 50] both are nearest integers of the exact
    number and they agree off the half-integers. *)
Definition scaledSize (w h maxSz : Z) : Z * Z :=
  if (w >? maxSz) || (h >? maxSz) then
    if w >? h then
      (maxSz, JsMath.round (inject_Z h * (inject_Z maxSz / inject_Z w))%Q)
    else
      (JsMath.round (inject_Z w * (inject_Z maxSz / inject_Z h))%Q, maxSz)
  else (w, h).

Definition getScaledImageData (P : Platform) (img : HTMLImageElement)
  (maxSz : Z) : result ImageData :=
  if negb (getContext P) then Throw "Could not get canvas context"
  else
    let '(w, h) := scaledSize (img_width img) (img_height img) maxSz in
    match drawAndRead P img w h with
    | Some bytes => Ok {| width := w; height := h; data := bytes |}
    | None => Throw "getImageData"
    end.

(** ** Arrays *)

(** The integers [a], [a+1], ..., [b-1], the values a counting [for] loop
    gives its variable. *)
Definition range (a b : Z) : list Z :=
  map (fun k => a + Z.of_nat k) (seq 0 (Z.to_nat (b - a))).

(** [arr[i]] on an array: [undefined] outside it. *)
Definition aget {A : Type} (arr : list A) (i : Z) : option A :=
  if i <? 0 then None else nth_error arr (Z.to_nat i).

Fixpoint replace_nth {A : Type} (n : nat) (v : A) (l : list A) : list A :=
  match l, n with
  | [], _ => []
  | _ :: t, O => v :: t
  | x :: t, S n' => x :: replace_nth n' v t
  end.

(** [arr[i] = v] on a typed array: a write outside the array is dropped. *)
Definition ta_set (arr : list Z) (i : Z) (v : Z) : list Z :=
  if i <? 0 then arr else replace_nth (Z.to_nat i) v arr.

(** [grid[idx] = p] on a plain (sparse) array: a write past the end
    extends the array, the slots between are holes; a negative index names
    a property, which neither an indexed read nor [for ... of] sees. *)
Definition grid_set (g : list (option Point)) (idx : Z) (p : Point)
  : list (option Point) :=
  if idx <? 0 then g
  else
    let n := Z.to_nat idx in
    if (n <? List.length g)%nat then replace_nth n (Some p) g
    else g ++ repeat None (n - List.length g) ++ [Some p].

Definition grid_get (g : list (option Point)) (idx : Z) : option Point :=
  match aget g idx with
  | Some (Some p) => Some p
  | _ => None
  end.

(** [arr.splice(i, 1)] *)
Fixpoint splice1 {A : Type} (n : nat) (l : list A) : list A :=
  match l, n with
  | [], _ => []
  | _ :: t, O => t
  | x :: t, Datatypes.S n' => x :: splice1 n' t
  end.

(** ** Point sampling *)

(** [addBorderPoints] pushes onto the array it is given: the corners
    first, then [numBorderPoints] is read off the length the array has by
    then. *)
Definition borderStep (numBorderPoints : Z) (w h : Q) (pts : list Point)
  (i : Z) : list Point :=
  let t := (inject_Z i / inject_Z numBorderPoints)%Q in
  pts ++ [ ((t * w)%Q, 0%Q); ((t * w)%Q, h); (0%Q, (t * h)%Q); (w, (t * h)%Q) ].

Definition addBorderPoints (pts : list Point) (width height : Z)
  : list Point :=
  let w := inject_Z width in
  let h := inject_Z height in
  let pts1 := pts ++ [ (0%Q, 0%Q); (w, 0%Q); (0%Q, h); (w, h) ] in
  let numBorderPoints :=
    JsMath.ceil_half_sqrt (Z.of_nat (List.length pts1)) in
  fold_left (borderStep numBorderPoints w h) (range 1 numBorderPoints) pts1.

Section Samplers.

(** The random source a sampler is given: a closure with a hidden state. *)
Variable S : Type.
Variable random : S -> Q * S.
Variable P : Platform.

(** *** Jittered grid *)

Definition gridCell (width height : Z) (colSize rowSize : Q)
  (i j : Z) (s : S) : Point * S :=
  let '(u1, s1) := random s in
  let jitterX := ((u1 - (1 # 2)) * colSize)%Q in
  let '(u2, s2) := random s1 in
  let jitterY := ((u2 - (1 # 2)) * rowSize)%Q in
  let x := JsMath.min (inject_Z width)
             (JsMath.max 0 (inject_Z j * colSize + colSize / 2 + jitterX))%Q in
  let y := JsMath.min (inject_Z height)
             (JsMath.max 0 (inject_Z i * rowSize + rowSize / 2 + jitterY))%Q in
  ((x, y), s2).

Definition gridRow (width height : Z) (colSize rowSize : Q) (cols : Z)
  (acc : list Point * S) (i : Z) : list Point * S :=
  fold_left (fun '(pts, s) j =>
               let '(p, s') := gridCell width height colSize rowSize i j s in
               (pts ++ [p], s'))
            (range 0 cols) acc.

(** For [numPoints <= 0] the source computes [rows = NaN] (from
    [Math.sqrt] of a negative number, or from [0 / 0]), the loop test
    [i < rows] is false at once and no point is produced.  The model
    covers [width > 0] and [height > 0].

    [cols] is the ceiling of a square root: where [numPoints * ratio] is
    a perfect square the double product can come out just above it and
    the source then takes one column more than the model
    ([sampleGrid(25, 3, 27)]: 16 columns for the model's 15).  [rows] is
    [ceil(numPoints / cols)] for the [cols] actually taken. *)
Definition sampleGrid (width height numPoints : Z) (s : S)
  : list Point * S :=
  if numPoints <=? 0 then ([], s)
  else
    let ratio := (inject_Z width / inject_Z height)%Q in
    let cols := JsMath.ceil_sqrt (inject_Z numPoints * ratio)%Q in
    let rows := JsMath.ceil (inject_Z numPoints / inject_Z cols)%Q in
    let colSize := (inject_Z width / inject_Z cols)%Q in
    let rowSize := (inject_Z height / inject_Z rows)%Q in
    fold_left (gridRow width height colSize rowSize cols) (range 0 rows)
              ([], s).

(** *** Edge-aware rejection sampling

    The loop runs while [points.length < numPoints] and
    [attempts < numPoints * 10]; [attempts] counts the iterations, so the
    recursion is on the attempts that remain.  A read of [edgeMap] outside
    the array is [undefined], the probability is then [NaN] and the
    comparison [random() < probability] is false. *)
Fixpoint edgeAwareLoop (remaining : nat) (width height numPoints : Z)
  (edgeMap : list Z) (edgeWeight : Q) (pts : list Point) (s : S)
  : list Point * S :=
  match remaining with
  | O => (pts, s)
  | Datatypes.S remaining' =>
      if Z.of_nat (List.length pts) <? numPoints then
        let '(u1, s1) := random s in
        let x := JsMath.floor (u1 * inject_Z width)%Q in
        let '(u2, s2) := random s1 in
        let y := JsMath.floor (u2 * inject_Z height)%Q in
        let '(u3, s3) := random s2 in
        let accept :=
          match aget edgeMap (y * width + x) with
          | Some e =>
              let edgeValue := (inject_Z e / 255)%Q in
              let probability :=
                ((1 - edgeWeight) + edgeWeight * edgeValue)%Q in
              if Qlt_le_dec u3 probability then true else false
          | None => false
          end in
        edgeAwareLoop remaining' width height numPoints edgeMap edgeWeight
          (if accept then pts ++ [(inject_Z x, inject_Z y)] else pts) s3
      else (pts, s)
  end.

Definition sampleEdgeAware (width height numPoints : Z) (edgeMap : list Z)
  (edgeWeight : Q) (s : S) : list Point * S :=
  edgeAwareLoop (Z.to_nat (numPoints * 10)) width height numPoints edgeMap
    edgeWeight [] s.

(** *** Poisson-disc sampling *)

Definition offsets : list Z := [-2; -1; 0; 1; 2].

Definition sq (q : Q) : Q := (q * q)%Q.

(** The scan of the 5 x 5 block of cells around the candidate's cell:
    [ok] stays true when no cell inside [0 <= row < rows],
    [0 <= col < cols] holds a point closer than [r]. *)
Definition candidateOk (r : Q) (cols rows : Z) (g : list (option Point))
  (row col : Z) (px py : Q) : bool :=
  forallb (fun dy =>
    forallb (fun dx =>
      let neighborRow := row + dy in
      let neighborCol := col + dx in
      if (0 <=? neighborRow) && (neighborRow <? rows)
         && (0 <=? neighborCol) && (neighborCol <? cols)
      then
        match grid_get g (neighborRow * cols + neighborCol) with
        | Some neighbor =>
            let d := Math_sqrt P (sq (fst neighbor - px)
                                  + sq (snd neighbor - py))%Q in
            negb (JsMath.ltb d r)
        | None => true
        end
      else true) offsets) offsets.

(** The [for (let j = 0; j < k; j++)] loop around one active point: the
    first candidate that passes, with the index of its grid cell. *)
Fixpoint tryCandidates (k : nat) (width height : Z) (r w : Q)
  (cols rows : Z) (g : list (option Point)) (pos : Point) (s : S)
  : option (Point * Z) * S :=
  match k with
  | O => (None, s)
  | Datatypes.S k' =>
      let '(u1, s1) := random s in
      let a := (2 * Math_PI P * u1)%Q in
      let '(u2, s2) := random s1 in
      let m := (r * (1 + u2))%Q in
      let px := (fst pos + m * Math_cos P a)%Q in
      let py := (snd pos + m * Math_sin P a)%Q in
      if JsMath.ltb px 0 || Qle_bool (inject_Z width) px
         || JsMath.ltb py 0 || Qle_bool (inject_Z height) py
      then tryCandidates k' width height r w cols rows g pos s2
      else
        let col := JsMath.floor (px / w)%Q in
        let row := JsMath.floor (py / w)%Q in
        if candidateOk r cols rows g row col px py
        then (Some ((px, py), row * cols + col), s2)
        else tryCandidates k' width height r w cols rows g pos s2
  end.

(** The [while (active.length > 0)] loop.  When [randIndex] falls outside
    [active] (a random number outside [0, 1)), [pos] is [undefined] and
    [pos[0]] throws. *)
Fixpoint poissonLoop (fuel : nat) (width height : Z) (r w : Q)
  (cols rows : Z) (g : list (option Point)) (active : list Point) (s : S)
  : result (list (option Point) * S) :=
  match active with
  | [] => Ok (g, s)
  | _ :: _ =>
      match fuel with
      | O => OutOfFuel
      | Datatypes.S fuel' =>
          let '(u, s1) := random s in
          let randIndex :=
            JsMath.floor (u * inject_Z (Z.of_nat (List.length active)))%Q in
          match aget active randIndex with
          | None => Throw "TypeError: pos is undefined"
          | Some pos =>
              match tryCandidates 30 width height r w cols rows g pos s1 with
              | (Some (p, idx), s2) =>
                  poissonLoop fuel' width height r w cols rows
                    (grid_set g idx p) (active ++ [p]) s2
              | (None, s2) =>
                  poissonLoop fuel' width height r w cols rows g
                    (splice1 (Z.to_nat randIndex) active) s2
              end
          end
      end
  end.

(** [for (const p of grid) if (p) points.push(p)] *)
Definition gridPoints (g : list (option Point)) : list Point :=
  flat_map (fun c => match c with Some p => [p] | None => [] end) g.

Fixpoint draws (n : nat) (s : S) : S :=
  match n with
  | O => s
  | Datatypes.S n' => draws n' (snd (random s))
  end.

Definition poissonRadius (width height numPoints : Z) : Q :=
  (Math_sqrt P ((inject_Z width * inject_Z height)
                / (inject_Z numPoints * Math_PI P)) * (3 # 2))%Q.

(** The model covers [width > 0] and [height > 0].
    - [numPoints < 0]: [r] is [NaN], every comparison with a candidate is
      false, so every candidate is accepted and pushed onto [active]: the
      loop does not end;
    - [numPoints = 0]: [r] and [w] are infinite, [cols = rows = 0], every
      candidate is at an infinite coordinate and is skipped; the seed
      point is dropped from [active] after its 30 attempts and is the one
      point returned. *)
Definition samplePoisson (fuel : nat) (width height numPoints : Z) (s : S)
  : result (list Point * S) :=
  if numPoints <? 0 then OutOfFuel
  else
    let '(u1, s1) := random s in
    let initialX := (u1 * inject_Z width)%Q in
    let '(u2, s2) := random s1 in
    let initialY := (u2 * inject_Z height)%Q in
    let p0 : Point := (initialX, initialY) in
    if numPoints =? 0 then Ok ([p0], draws 61 s2)
    else
      let r := poissonRadius width height numPoints in
      let w := (r / Math_sqrt P 2)%Q in
      let cols := JsMath.floor (inject_Z width / w)%Q in
      let rows := JsMath.floor (inject_Z height / w)%Q in
      let i0 := JsMath.floor (initialX / w)%Q in
      let j0 := JsMath.floor (initialY / w)%Q in
      let g := grid_set [] (j0 * cols + i0) p0 in
      gs <- poissonLoop fuel width height r w cols rows g [p0] s2 ;;
      Ok (gridPoints (fst gs), snd gs).

End Samplers.

(** ** Edge detection ([createEdgeMap])

    [grayscale] and [edgeMap] are [Uint8ClampedArray]s of [width * height]
    zeros; every number stored in them is clamped to [0, 255] and rounded
    (ties to even) at the store. *)

Definition luminance (r g b : Z) : Q :=
  ((299 # 1000) * inject_Z r + (587 # 1000) * inject_Z g
   + (114 # 1000) * inject_Z b)%Q.

(** One round of [for (let i = 0; i < data.length; i += 4)], with
    [i = 4 * k]; a channel read past the end of [data] is [undefined], the
    sum is [NaN] and the array stores 0.  The byte stored is the rounding
    of the exact luminance; where that is a half-integer the double sum of
    the source can round to the other neighbour (rgb(0, 80, 110): 59 for
    59.5, the model stores 60).  For a grey pixel the two agree. *)
Definition grayscaleStep (d : list Z) (gray : list Z) (k : Z) : list Z :=
  let i := 4 * k in
  match aget d i, aget d (i + 1), aget d (i + 2) with
  | Some r, Some g, Some b =>
      ta_set gray k (JsMath.toUint8Clamped (luminance r g b))
  | _, _, _ => ta_set gray k 0
  end.

Definition grayscaleOf (img : ImageData) : list Z :=
  fold_left (grayscaleStep (data img))
    (range 0 ((Z.of_nat (List.length (data img)) + 3) / 4))
    (repeat 0 (Z.to_nat (width img * height img))).

Definition sobelX : list Z := [-1; 0; 1; -2; 0; 2; -1; 0; 1].
Definition sobelY : list Z := [-1; -2; -1; 0; 0; 0; 1; 2; 1].

(** [gx] and [gy] at the interior pixel [(x, y)].  Every index read lies
    inside [grayscale] and inside the kernels, so the defaults of [nth]
    are never returned. *)
Definition sobelAt (w : Z) (gray : list Z) (x y : Z) : Z * Z :=
  fold_left (fun acc ky =>
    fold_left (fun '(gx, gy) kx =>
      let idx := (y + ky) * w + (x + kx) in
      let weightX := nth (Z.to_nat ((ky + 1) * 3 + (kx + 1))) sobelX 0 in
      let weightY := nth (Z.to_nat ((ky + 1) * 3 + (kx + 1))) sobelY 0 in
      let v := nth (Z.to_nat idx) gray 0 in
      (gx + v * weightX, gy + v * weightY))
      (range (-1) 2) acc)
    (range (-1) 2) (0, 0).

(** The magnitude is [Math.sqrt(n)] with [n = gx*gx + gy*gy] an integer.
    The square root of an integer is never half-way between two integers,
    so the byte stored for it is [floor(sqrt(n) + 1/2)], which is
    [(floor(sqrt(4n)) + 1) / 2], clamped at 255. *)
Definition storeMagnitude (n : Z) : Z := Z.min 255 ((Z.sqrt (4 * n) + 1) / 2).

(** The two nested [for] loops: the map so far and the square of
    [maxGradient] ([magnitude > maxGradient] compares the squares). *)
Definition edgeStep (w : Z) (gray : list Z) (y : Z) (st : list Z * Z) (x : Z)
  : list Z * Z :=
  let '(edgeMap, maxSq) := st in
  let '(gx, gy) := sobelAt w gray x y in
  let n := gx * gx + gy * gy in
  (ta_set edgeMap (y * w + x) (storeMagnitude n),
   if n >? maxSq then n else maxSq).

Definition edgeRows (w h : Z) (gray : list Z) : list Z * Z :=
  fold_left (fun st y => fold_left (edgeStep w gray y) (range 1 (w - 1)) st)
    (range 1 (h - 1))
    (repeat 0 (Z.to_nat (w * h)), 0).

(** [edgeMap[i] = (edgeMap[i] / maxGradient) * 255] for the stored byte [e]
    and [maxGradient = sqrt(maxSq)]: the number [v = 255 e / sqrt(maxSq)],
    clamped and rounded.  [v >= 255] when [e * e >= maxSq];
    [floor(2 v)] is [floor(sqrt(260100 e^2 / maxSq))], and [v] is half-way
    between two integers exactly when [2 v] is an odd integer.  (On such a
    tie the two IEEE roundings of the source can leave the product just
    below the half; the model rounds the exact value.) *)
Definition normalizeByte (e maxSq : Z) : Z :=
  if e <=? 0 then 0
  else if maxSq <=? e * e then 255
  else
    let twice := Z.sqrt ((260100 * e * e) / maxSq) in
    if Z.even twice then twice / 2
    else if twice * twice * maxSq =? 260100 * e * e
         then (if Z.even (twice / 2) then twice / 2 else twice / 2 + 1)
         else twice / 2 + 1.

Definition createEdgeMap (img : ImageData) : list Z :=
  let gray := grayscaleOf img in
  let '(edgeMap, maxSq) := edgeRows (width img) (height img) gray in
  if maxSq >? 0 then map (fun e => normalizeByte e maxSq) edgeMap
  else edgeMap.

(** The square of [maxGradient] for an image. *)
Definition maxGradientSq (img : ImageData) : Z :=
  snd (edgeRows (width img) (height img) (grayscaleOf img)).

(** ** Geometry and colour *)

Definition getCentroid (v : Vertices) : Point :=
  let '(a, b, c) := v in
  (((fst a + fst b + fst c) / 3)%Q, ((snd a + snd b + snd c) / 3)%Q).

(** The exact area.  The double the source computes is within a few
    ulps of it; it is never negative, it is the same for [(a, b, c)] and
    [(b, a, c)] (every term changes sign and the first sum commutes), and
    it is 0 when two vertices are equal.  Other rearrangements and
    translations can move it by an ulp. *)
Definition getArea (v : Vertices) : Q :=
  let '(a, b, c) := v in
  JsMath.abs ((fst a * (snd b - snd c) + fst b * (snd c - snd a)
               + fst c * (snd a - snd b)) / 2)%Q.

Definition pixelAt (d : list Z) (index : Z) : option (Z * Z * Z) :=
  match aget d index, aget d (index + 1), aget d (index + 2) with
  | Some r, Some g, Some b => Some (r, g, b)
  | _, _, _ => None
  end.

Section Colour.

Variable P : Platform.

(** The barycentric test at the pixel [(x, y)].  When [detT] is 0 the
    three quotients of the source are infinite or [NaN] and the test is
    false whatever their signs.  On an edge of the triangle one
    coordinate is exactly 0 and its double can come out a fraction of an
    ulp below: the source may skip a pixel of the boundary that the exact
    test takes. *)
Definition insideTriangle (v : Vertices) (x y : Z) : bool :=
  let '(p1, p2, p3) := v in
  let detT := ((snd p2 - snd p3) * (fst p1 - fst p3)
               + (fst p3 - fst p2) * (snd p1 - snd p3))%Q in
  if Qeq_bool detT 0 then false
  else
    let lambda1 := (((snd p2 - snd p3) * (inject_Z x - fst p3)
                     + (fst p3 - fst p2) * (inject_Z y - snd p3)) / detT)%Q in
    let lambda2 := (((snd p3 - snd p1) * (inject_Z x - fst p3)
                     + (fst p1 - fst p3) * (inject_Z y - snd p3)) / detT)%Q in
    let lambda3 := (1 - lambda1 - lambda2)%Q in
    Qle_bool 0 lambda1 && Qle_bool 0 lambda2 && Qle_bool 0 lambda3.

(** The accumulators [(c1, c2, c3)] ([None] once a [NaN] has been added)
    and [count]. *)
Definition Acc : Type := option (Q * Q * Q) * Z.

Definition colourStep (v : Vertices) (img : ImageData) (cs : ColorSpace)
  (y : Z) (acc : Acc) (x : Z) : Acc :=
  if insideTriangle v x y then
    let index := (y * width img + x) * 4 in
    let sums :=
      match fst acc, pixelAt (data img) index with
      | Some (c1, c2, c3), Some (r, g, b) =>
          match cs with
          | LAB =>
              let '(l, a, b') := d3_lab P r g b in
              Some ((c1 + l)%Q, (c2 + a)%Q, (c3 + b')%Q)
          | RGB =>
              Some ((c1 + inject_Z r)%Q, (c2 + inject_Z g)%Q,
                    (c3 + inject_Z b)%Q)
          end
      | _, _ => None
      end in
    (sums, snd acc + 1)
  else acc.

(** [minX], [maxX], [minY], [maxY]. *)
Definition boundingBox (v : Vertices) (img : ImageData) : Z * Z * Z * Z :=
  let '(p1, p2, p3) := v in
  (Z.max 0 (JsMath.floor (JsMath.min3 (fst p1) (fst p2) (fst p3))),
   Z.min (width img) (JsMath.ceil (JsMath.max3 (fst p1) (fst p2) (fst p3))),
   Z.max 0 (JsMath.floor (JsMath.min3 (snd p1) (snd p2) (snd p3))),
   Z.min (height img) (JsMath.ceil (JsMath.max3 (snd p1) (snd p2) (snd p3)))).

(** The two nested [for] loops over the bounding box. *)
Definition colourSums (v : Vertices) (img : ImageData) (cs : ColorSpace)
  : Acc :=
  let '(minX, maxX, minY, maxY) := boundingBox v img in
  fold_left (fun acc y =>
               fold_left (colourStep v img cs y) (range minX maxX) acc)
            (range minY maxY) (Some (0%Q, 0%Q, 0%Q), 0).

Definition getAverageColor (v : Vertices) (img : ImageData) (cs : ColorSpace)
  : Color :=
  let '(minX, maxX, minY, maxY) := boundingBox v img in
  let '(sums, count) := colourSums v img cs in
  if count =? 0 then
    let centerIdx := ((minY + maxY) / 2 * width img + (minX + maxX) / 2) * 4 in
    pixelAt (data img) centerIdx
  else
    match sums with
    | None => None
    | Some (c1, c2, c3) =>
        let n := inject_Z count in
        match cs with
        | LAB =>
            let '(r, g, b) := d3_lab_rgb P (c1 / n)%Q (c2 / n)%Q (c3 / n)%Q in
            Some (JsMath.round r, JsMath.round g, JsMath.round b)
        | RGB =>
            Some (JsMath.round (c1 / n)%Q, JsMath.round (c2 / n)%Q,
                  JsMath.round (c3 / n)%Q)
        end
    end.

End Colour.

(** ** The main generation function ([generateLowPolyData]) *)

(** [triangleIndexMap]: a [Map] keeps its entries in insertion order;
    [set] on a key already present replaces the value in place. *)
Definition IndexMap : Type := list (Z * Z).

Fixpoint map_set (m : IndexMap) (k v : Z) : IndexMap :=
  match m with
  | [] => [(k, v)]
  | (k', v') :: rest =>
      if k' =? k then (k, v) :: rest else (k', v') :: map_set rest k v
  end.

Fixpoint map_get (m : IndexMap) (k : Z) : option Z :=
  match m with
  | [] => None
  | (k', v') :: rest => if k' =? k then Some v' else map_get rest k
  end.

(** [vertices.some(v => v[0] < 0 || v[0] > width || v[1] < 0 || v[1] > height)] *)
Definition outsideCanvas (w h : Z) (p : Point) : bool :=
  JsMath.ltb (fst p) 0 || JsMath.ltb (inject_Z w) (fst p)
  || JsMath.ltb (snd p) 0 || JsMath.ltb (inject_Z h) (snd p).

Definition someOutside (w h : Z) (v : Vertices) : bool :=
  let '(a, b, c) := v in
  outsideCanvas w h a || outsideCanvas w h b || outsideCanvas w h c.

(** A polygon the filter keeps. *)
Definition kept (w h : Z) (v : Vertices) : bool :=
  negb (someOutside w h v) && negb (JsMath.ltb (getArea v) 1).

Record FilterState := {
  fs_triangles : list Triangle;
  fs_map : IndexMap;
  fs_currentId : Z
}.

Section Generate.

Variable P : Platform.

(** The loop over [trianglePolygons], from index [i] on. *)
Fixpoint filterLoop (img : ImageData) (cs : ColorSpace)
  (polys : list Vertices) (i : Z) (st : FilterState) : FilterState :=
  match polys with
  | [] => st
  | v :: rest =>
      if someOutside (width img) (height img) v then
        filterLoop img cs rest (i + 1) st
      else
        let centroid := getCentroid v in
        let area := getArea v in
        if JsMath.ltb area 1 then filterLoop img cs rest (i + 1) st
        else
          let avg := getAverageColor P v img cs in
          let tri := {| id := fs_currentId st;
                        vertices := v;
                        centroid := centroid;
                        area_px := area;
                        avg_color := avg;
                        neighbors := [] |} in
          filterLoop img cs rest (i + 1)
            {| fs_triangles := fs_triangles st ++ [tri];
               fs_map := map_set (fs_map st) i (fs_currentId st);
               fs_currentId := fs_currentId st + 1 |}
  end.

(** The inner loop of the adjacency step; [if (neighborId)] drops
    [undefined] and 0. *)
Definition pushNeighbor (m : IndexMap) (acc : list Z) (neighborIndex : Z)
  : list Z :=
  match map_get m neighborIndex with
  | Some neighborId => if neighborId =? 0 then acc else acc ++ [neighborId]
  | None => acc
  end.

Definition resolveNeighbors (d : Delaunay) (m : IndexMap) (tri : Triangle)
  : Triangle :=
  match find (fun e => snd e =? id tri) m with
  | None => tri
  | Some (originalIndex, _) =>
      {| id := id tri;
         vertices := vertices tri;
         centroid := centroid tri;
         area_px := area_px tri;
         avg_color := avg_color tri;
         neighbors := fold_left (pushNeighbor m)
                        (delaunay_neighbors d originalIndex)
                        (neighbors tri) |}
  end.

Definition samplePoints (fuel : nat) (img : ImageData) (settings : Settings)
  : result (list Point) :=
  let random := createPRNG P in
  match sampler settings with
  | GRID =>
      Ok (fst (sampleGrid Q random (width img) (height img)
                 (points settings) (seed settings)))
  | POISSON =>
      ps <- samplePoisson Q random P fuel (width img) (height img)
              (points settings) (seed settings) ;;
      Ok (fst ps)
  | EDGE_AWARE =>
      let edgeMap := createEdgeMap img in
      Ok (fst (sampleEdgeAware Q random (width img) (height img)
                 (points settings) edgeMap (edgeWeight settings)
                 (seed settings)))
  end.

Definition generateLowPolyData (fuel : nat) (image : HTMLImageElement)
  (sourceFileName : string) (settings : Settings) : result LowPolyOutput :=
  img <- getScaledImageData P image (maxSize settings) ;;
  sampled <- samplePoints fuel img settings ;;
  let pts := addBorderPoints sampled (width img) (height img) in
  let delaunay := d3_Delaunay_from P pts in
  let st := filterLoop img (colorSpace settings) (trianglePolygons delaunay) 0
              {| fs_triangles := []; fs_map := []; fs_currentId := 1 |} in
  let tris :=
    if withNeighbors settings
    then map (resolveNeighbors delaunay (fs_map st)) (fs_triangles st)
    else fs_triangles st in
  Ok {| version := "1.0";
        image := {| out_width := width img;
                    out_height := height img;
                    source := sourceFileName |};
        params := {| p_sampler := sampler settings;
                     p_points := points settings;
                     p_seed := seed settings;
                     p_color_space := colorSpace settings |};
        triangles := tris |}.

End Generate.

(** * A reference platform

    An executable platform for running the service on concrete inputs: the
    [Math] functions and d3-color's Lab conversions as rational
    approximations (roots by bisection on integers, sine and cosine by
    their Taylor polynomials after reduction to one period), a canvas that
    reads back the picture it is given, and a stand-in triangulator. *)

Module Ref.

(** The largest [x] in [[lo, hi)] with [x ^ k <= n], by bisection. *)
Fixpoint bisect (fuel : nat) (k n lo hi : Z) : Z :=
  match fuel with
  | O => lo
  | Datatypes.S fuel' =>
      if hi - lo <=? 1 then lo
      else
        let mid := (lo + hi) / 2 in
        if mid ^ k <=? n then bisect fuel' k n mid hi
        else bisect fuel' k n lo mid
  end.

Definition precision : Z := 10 ^ 9.

(** The [k]-th root of [q >= 0], rounded down to 9 decimals. *)
Definition root (k : Z) (q : Q) : Q :=
  let n := Qfloor (q * inject_Z (precision ^ k))%Q in
  if n <=? 0 then 0%Q
  else Qred (Qmake (bisect 400 k n 0
                      (Z.max 1 (Qceiling q) * precision + 1)) 1000000000).

Definition sqrt (q : Q) : Q := root 2 q.

Definition PI : Q := 3141592653589793 # 1000000000000000.

(** Rounded down to 15 decimals. *)
Definition truncate (q : Q) : Q :=
  Qred (Qmake (Qfloor (q * 1000000000000000)%Q) 1000000000000000).

(** The sum of [n] terms of a power series in [x2 = x * x] whose current
    term is [t] and whose next term is [- t * x2 / ((d + 1) (d + 2))],
    every term rounded down to 15 decimals. *)
Fixpoint series (n : nat) (x2 t : Q) (d : Z) : Q :=
  match n with
  | O => 0%Q
  | Datatypes.S n' =>
      truncate (t + series n' x2
                      (truncate (- t * x2 / inject_Z ((d + 1) * (d + 2))))
                      (d + 2))%Q
  end.

Definition reduce (x : Q) : Q :=
  truncate (x - 2 * PI * inject_Z (Qfloor (x / (2 * PI))))%Q.

Definition cos (x : Q) : Q :=
  let y := reduce x in series 20 (truncate (y * y)) 1 0.

Definition sin (x : Q) : Q :=
  let y := reduce x in series 20 (truncate (y * y)) y 1.

(** d3-color's Lab conversions (D50 white point). *)
Definition Xn : Q := 96422 # 100000.
Definition Zn : Q := 82521 # 100000.
Definition t0 : Q := 4 # 29.
Definition t1 : Q := 6 # 29.
Definition t2 : Q := (3 * t1 * t1)%Q.
Definition t3 : Q := (t1 * t1 * t1)%Q.

Definition rgb2lrgb (c : Z) : Q :=
  let x := (inject_Z c / 255)%Q in
  if Qle_bool x (4045 # 100000) then (x / (1292 # 100))%Q
  else root 5 (((x + (55 # 1000)) / (1055 # 1000)) ^ 12)%Q.

Definition xyz2lab (t : Q) : Q :=
  if Qle_bool t t3 then (t / t2 + t0)%Q else root 3 t.

Definition lab2xyz (t : Q) : Q :=
  if Qle_bool t t1 then (t2 * (t - t0))%Q else (t * t * t)%Q.

Definition lrgb2rgb (x : Q) : Q :=
  (255 * (if Qle_bool x (31308 # 10000000) then (1292 # 100) * x
          else (1055 # 1000) * root 12 (x ^ 5) - (55 # 1000)))%Q.

Definition lab (r g b : Z) : Q * Q * Q :=
  let r' := rgb2lrgb r in
  let g' := rgb2lrgb g in
  let b' := rgb2lrgb b in
  let y := xyz2lab ((2225045 # 10000000) * r' + (7168786 # 10000000) * g'
                    + (606169 # 10000000) * b')%Q in
  let x := if (r =? g) && (g =? b) then y
           else xyz2lab (((4360747 # 10000000) * r'
                          + (3850649 # 10000000) * g'
                          + (1430804 # 10000000) * b') / Xn)%Q in
  let z := if (r =? g) && (g =? b) then y
           else xyz2lab (((139322 # 10000000) * r'
                          + (971045 # 10000000) * g'
                          + (7141733 # 10000000) * b') / Zn)%Q in
  (Qred (116 * y - 16), Qred (500 * (x - y)), Qred (200 * (y - z)))%Q.

Definition lab_rgb (l a b : Q) : Q * Q * Q :=
  let fy := Qred ((l + 16) / 116)%Q in
  let fx := Qred (fy + a / 500)%Q in
  let fz := Qred (fy - b / 200)%Q in
  let x := (Xn * lab2xyz fx)%Q in
  let y := lab2xyz fy in
  let z := (Zn * lab2xyz fz)%Q in
  (Qred (lrgb2rgb ((31338561 # 10000000) * x - (16168667 # 10000000) * y
                   - (4906146 # 10000000) * z)),
   Qred (lrgb2rgb (- (9787684 # 10000000) * x + (19161415 # 10000000) * y
                   + (334540 # 10000000) * z)),
   Qred (lrgb2rgb ((719453 # 10000000) * x - (2289914 # 10000000) * y
                   + (14052427 # 10000000) * z)))%Q.

(** A stand-in for the triangulator: the triangles spanned by every three
    consecutive points, and the two faces next to a face in that list.  It
    is not a Delaunay triangulation; it feeds the filter with faces. *)
Fixpoint strip (pts : list Point) : list Vertices :=
  match pts with
  | a :: ((b :: c :: _) as rest) => (a, b, c) :: strip rest
  | _ => []
  end.

Definition triangulate (pts : list Point) : Delaunay :=
  {| trianglePolygons := strip pts;
     delaunay_neighbors := fun i => [i - 1; i + 1] |}.

(** The canvas reads back [4 * w * h] bytes of the picture, repeating it;
    the browser's [getImageData] throws on an empty rectangle. *)
Fixpoint cycle (n : nat) (src cur : list Z) : list Z :=
  match n with
  | O => []
  | Datatypes.S n' =>
      match cur with
      | x :: cur' => x :: cycle n' src cur'
      | [] => match src with
              | x :: cur' => x :: cycle n' src cur'
              | [] => 0 :: cycle n' src []
              end
      end
  end.

Definition readBack (img : HTMLImageElement) (w h : Z) : option (list Z) :=
  if (w <=? 0) || (h <=? 0) then None
  else Some (cycle (Z.to_nat (4 * w * h)) (picture img) (picture img)).

Definition platform : Platform :=
  {| Math_sqrt := sqrt;
     Math_sin := sin;
     Math_cos := cos;
     Math_PI := PI;
     getContext := true;
     drawAndRead := readBack;
     d3_lab := lab;
     d3_lab_rgb := lab_rgb;
     d3_Delaunay_from := triangulate |}.

End Ref.

(** * Concrete inputs *)

Module Demo.

(** A 4 x 4 picture, every pixel opaque red. *)
Definition red4 : HTMLImageElement :=
  {| img_width := 4; img_height := 4; picture := [255; 0; 0; 255] |}.

(** A picture 1024 pixels wide and one pixel high. *)
Definition panorama : HTMLImageElement :=
  {| img_width := 1024; img_height := 1; picture := [255; 0; 0; 255] |}.

(** A picture 8 pixels wide and 4 pixels high. *)
Definition poster : HTMLImageElement :=
  {| img_width := 8; img_height := 4; picture := [0; 0; 255; 255] |}.

Definition gridSettings : Settings :=
  {| maxSize := 256; points := 4; sampler := GRID; seed := 1;
     edgeWeight := 8 # 10; colorSpace := RGB; withNeighbors := true;
     previewOutline := true; showPointIds := false |}.

(** The same, with the adjacency step switched off. *)
Definition plainSettings : Settings :=
  {| maxSize := 256; points := 4; sampler := GRID; seed := 1;
     edgeWeight := 8 # 10; colorSpace := RGB; withNeighbors := false;
     previewOutline := true; showPointIds := false |}.

(** The settings of the application at start, with a point count of 0. *)
Definition noPoints : Settings :=
  {| maxSize := 1024; points := 0; sampler := EDGE_AWARE; seed := 42;
     edgeWeight := 8 # 10; colorSpace := LAB; withNeighbors := true;
     previewOutline := true; showPointIds := false |}.

Definition noTriangle : Triangle :=
  {| id := 0; vertices := ((0, 0), (0, 0), (0, 0))%Q; centroid := (0, 0)%Q;
     area_px := 0%Q; avg_color := None; neighbors := [] |}.

Definition noOutput : LowPolyOutput :=
  {| version := EmptyString;
     image := {| out_width := 0; out_height := 0; source := EmptyString |};
     params := {| p_sampler := GRID; p_points := 0; p_seed := 0%Q;
                  p_color_space := RGB |};
     triangles := [] |}.

(** The result of a run, when there is one. *)
Definition resultOf (r : result LowPolyOutput) : LowPolyOutput :=
  match r with
  | Ok out => out
  | _ => noOutput
  end.

(** What the canvas reads back for [red4] at its own size. *)
Definition red4Data : ImageData :=
  {| width := 4; height := 4;
     data := Ref.cycle 64 [255; 0; 0; 255] [255; 0; 0; 255] |}.

(** What the canvas reads back for [poster] scaled to 4 x 2. *)
Definition posterData : ImageData :=
  {| width := 4; height := 2;
     data := Ref.cycle 32 [0; 0; 255; 255] [0; 0; 255; 255] |}.

Definition noPointsOutput : LowPolyOutput :=
  resultOf (generateLowPolyData Ref.platform 0 red4 "input.png" noPoints).

(** A 2 x 2 picture: blue and red on the first row, red and blue on the
    second. *)
Definition blueRed : HTMLImageElement :=
  {| img_width := 2; img_height := 2;
     picture := [0; 0; 255; 255;  255; 0; 0; 255;
                 255; 0; 0; 255;  0; 0; 255; 255] |}.

Definition blueRedData : ImageData :=
  {| width := 2; height := 2; data := picture blueRed |}.

(** The lower left half of the 2 x 2 canvas. *)
Definition halfSquare : Vertices := ((0, 0), (2, 0), (0, 2))%Q.

Definition blueRedOutput : LowPolyOutput :=
  resultOf (generateLowPolyData Ref.platform 0 blueRed "input.png" noPoints).

(** A 3 x 3 picture: two black columns and a white one. *)
Definition stepEdge : ImageData :=
  {| width := 3; height := 3;
     data := [0; 0; 0; 255;  0; 0; 0; 255;  255; 255; 255; 255;
              0; 0; 0; 255;  0; 0; 0; 255;  255; 255; 255; 255;
              0; 0; 0; 255;  0; 0; 0; 255;  255; 255; 255; 255] |}.

(** A random source that returns the numbers of a list in turn (and 0
    once the list is used up). *)
Definition nextOf (s : list Q) : Q * list Q :=
  match s with
  | u :: rest => (u, rest)
  | [] => (0%Q, [])
  end.

(** The numbers drawn in a run of the Poisson-disc sampler on a
    100 x 100 canvas with 50 target points: the seed point
    [(76.6, 95)]; from it a candidate at angle 0 and distance [r], then one
    at angle 0 and distance [1.9 r]; then, for each of the three points,
    thirty candidates at angle 0 and distance [1.99 r], all beyond the
    right border. *)
Definition darts : list Q :=
  [ 766 # 1000; 95 # 100;
    0; 0; 0;
    0; 0; 9 # 10 ]%Q
  ++ List.concat
       (repeat (0%Q :: List.concat (repeat [0%Q; (99 # 100)%Q] 30)) 3).

Definition poissonPoints : list Point :=
  match samplePoisson (list Q) nextOf Ref.platform 10 100 100 50 darts with
  | Ok (pts, _) => pts
  | _ => []
  end.

Definition gridRun : result LowPolyOutput :=
  generateLowPolyData Ref.platform 0 red4 "input.png" gridSettings.

Definition gridOutput : LowPolyOutput := resultOf gridRun.

Definition plainOutput : LowPolyOutput :=
  resultOf (generateLowPolyData Ref.platform 0 red4 "input.png" plainSettings).

(** The edge-aware sampler with an edge weight of 1. *)
Definition edgeOnly : Settings :=
  {| maxSize := 256; points := 5; sampler := EDGE_AWARE; seed := 42;
     edgeWeight := 1; colorSpace := RGB; withNeighbors := true;
     previewOutline := true; showPointIds := false |}.

Definition edgeOnlyOutput : LowPolyOutput :=
  resultOf (generateLowPolyData Ref.platform 0 red4 "input.png" edgeOnly).

End Demo.

(** * The vocabulary of the properties *)

(** The ids [first], [first + 1], ... of [n] triangles. *)
Definition idsFrom (first : Z) (n : nat) : list Z :=
  map (fun k => first + Z.of_nat k) (seq 0 n).

(** Every value of a map lies in [[lo, hi)]. *)
Definition valuesWithin (m : IndexMap) (lo hi : Z) : Prop :=
  forall k v, map_get m k = Some v -> lo <= v < hi.

(** The state before the first polygon: no triangle, an empty map,
    [currentId = 1]. *)
Definition initialState : FilterState :=
  {| fs_triangles := []; fs_map := []; fs_currentId := 1 |}.

(** The state of the filter loop at its end, for the points handed to the
    triangulator. *)
Definition filtered (P : Platform) (img : ImageData) (cs : ColorSpace)
  (pts : list Point) : FilterState :=
  filterLoop P img cs (trianglePolygons (d3_Delaunay_from P pts)) 0
    initialState.

(** The three vertices of a triangle. *)
Definition vertexList (v : Vertices) : list Point :=
  let '(a, b, c) := v in [a; b; c].

(** [0 <= x <= width] and [0 <= y <= height]. *)
Definition withinCanvas (w h : Z) (p : Point) : Prop :=
  (0 <= fst p)%Q /\ (fst p <= inject_Z w)%Q
  /\ (0 <= snd p)%Q /\ (snd p <= inject_Z h)%Q.

(** The corners, in the order [addBorderPoints] pushes them. *)
Definition corners (w h : Z) : list Point :=
  [ (0%Q, 0%Q); (inject_Z w, 0%Q); (0%Q, inject_Z h);
    (inject_Z w, inject_Z h) ].

(** The four points pushed in round [i] of the loop. *)
Definition edgePoints (k : Z) (w h : Q) (i : Z) : list Point :=
  let t := (inject_Z i / inject_Z k)%Q in
  [ ((t * w)%Q, 0%Q); ((t * w)%Q, h); (0%Q, (t * h)%Q); (w, (t * h)%Q) ].

(** A point with integer coordinates inside the pixel grid. *)
Definition pixelPoint (w h : Z) (p : Point) : Prop :=
  exists x y : Z,
    p = (inject_Z x, inject_Z y) /\ 0 <= x <= w - 1 /\ 0 <= y <= h - 1.

(** [0 <= x < width] and [0 <= y < height]. *)
Definition inDomain (w h : Z) (p : Point) : Prop :=
  (0 <= fst p)%Q /\ (fst p < inject_Z w)%Q
  /\ (0 <= snd p)%Q /\ (snd p < inject_Z h)%Q.

(** An integer in [0, 255]. *)
Definition byte (z : Z) : Prop := 0 <= z <= 255.

Definition byteTriple (c : Z * Z * Z) : Prop :=
  byte (fst (fst c)) /\ byte (snd (fst c)) /\ byte (snd c).

(** The sums of the RGB loop: each between 0 and 255 times the count. *)
Definition sumsBounded (acc : Acc) : Prop :=
  0 <= snd acc
  /\ match fst acc with
     | Some (c1, c2, c3) =>
         (0 <= c1 /\ c1 <= 255 * inject_Z (snd acc))%Q
         /\ (0 <= c2 /\ c2 <= 255 * inject_Z (snd acc))%Q
         /\ (0 <= c3 /\ c3 <= 255 * inject_Z (snd acc))%Q
     | None => True
     end.

(** An [ImageData] as the canvas makes it: [4 * width * height] bytes. *)
Definition wellFormed (img : ImageData) : Prop :=
  0 <= width img /\ 0 <= height img
  /\ Z.of_nat (List.length (data img)) = 4 * width img * height img
  /\ Forall byte (data img).

(** What the code gives a triangle [t] for its colour: a byte triple with
    the RGB colour space; with the Lab colour space the bytes of one pixel
    when no pixel passed the test, and otherwise the rounded channels of
    d3's conversion of the mean Lab triple. *)
Definition colouredAsCoded (P : Platform) (settings : Settings)
  (img : ImageData) (t : Triangle) : Prop :=
  (colorSpace settings = RGB ->
   exists c, avg_color t = Some c /\ byteTriple c)
  /\ (colorSpace settings = LAB ->
      exists c1 c2 c3 n,
        colourSums P (vertices t) img LAB = (Some (c1, c2, c3), n)
        /\ (n = 0 -> exists c, avg_color t = Some c /\ byteTriple c)
        /\ (n <> 0 ->
            avg_color t
            = Some (JsMath.round
                      (fst (fst (d3_lab_rgb P (c1 / inject_Z n)
                                   (c2 / inject_Z n) (c3 / inject_Z n)))),
                    JsMath.round
                      (snd (fst (d3_lab_rgb P (c1 / inject_Z n)
                                   (c2 / inject_Z n) (c3 / inject_Z n)))),
                    JsMath.round
                      (snd (d3_lab_rgb P (c1 / inject_Z n)
                              (c2 / inject_Z n) (c3 / inject_Z n)))))).

(** The greatest value of an edge map (its values are not negative). *)
Definition maximum (l : list Z) : Z := fold_left Z.max l 0.



(** The pixel [(x, y)] lies on the one-pixel ring around a [w] x [h]
    image. *)
Definition onRing (w h x y : Z) : Prop :=
  0 <= x < w /\ 0 <= y < h
  /\ (x = 0 \/ x = w - 1 \/ y = 0 \/ y = h - 1).

(** Every pixel of the image has the colour [(r, g, b)]. *)
Definition solidColour (img : ImageData) (r g b : Z) : Prop :=
  forall k, 0 <= k < width img * height img ->
            pixelAt (data img) (4 * k) = Some (r, g, b).

(** The sums over an image of one colour: the count times the colour. *)
Definition sumsOf (r g b : Z) (acc : Acc) : Prop :=
  0 <= snd acc
  /\ exists c1 c2 c3,
       fst acc = Some (c1, c2, c3)
       /\ (c1 == inject_Z (snd acc) * inject_Z r)%Q
       /\ (c2 == inject_Z (snd acc) * inject_Z g)%Q
       /\ (c3 == inject_Z (snd acc) * inject_Z b)%Q.

(** The polygon [v] at index [k] of [polys ++ ...], counted from [i], is
    kept, and [c] is [cur] plus the number of kept polygons before it. *)
Definition slot (w h : Z) (polys : list Vertices) (i cur k : Z)
  (v : Vertices) (c : Z) : Prop :=
  i <= k
  /\ nth_error polys (Z.to_nat (k - i)) = Some v
  /\ kept w h v = true
  /\ c = cur + Z.of_nat (List.length
                           (filter (kept w h) (firstn (Z.to_nat (k - i)) polys))).



(** A triangle that records the centroid and the area of its own
    vertices, with an area of at least 1 and its centroid on the canvas. *)
Definition enriched (w h : Z) (t : Triangle) : Prop :=
  centroid t = getCentroid (vertices t)
  /\ area_px t = getArea (vertices t)
  /\ (1 <= area_px t)%Q
  /\ withinCanvas w h (centroid t).

(** * Properties *)

(** ** Rounding *)

Lemma round_ratio (a b c : Z) :
  0 < c ->
  JsMath.round (inject_Z a * (inject_Z b / inject_Z c))%Q
  = (2 * a * b + c) / (2 * c).
Proof.
  intro Hc. unfold JsMath.round.
  rewrite Zdiv_Qdiv. apply Qfloor_comp.
  rewrite !inject_Z_plus, !inject_Z_mult.
  assert (Hq : ~ (inject_Z c == 0)%Q).
  { intro H. unfold Qeq in H. simpl in H. lia. }
  field. exact Hq.
Qed.

Lemma scaledSize_small (w h m : Z) :
  w <= m -> h <= m -> scaledSize w h m = (w, h).
Proof.
  intros Hw Hh. unfold scaledSize.
  destruct (Z.gtb_spec w m); [lia|]. destruct (Z.gtb_spec h m); [lia|].
  reflexivity.
Qed.

Lemma scaledSize_wide (w h m : Z) :
  0 < w -> (m < w \/ m < h) -> h < w ->
  scaledSize w h m = (m, (2 * h * m + w) / (2 * w)).
Proof.
  intros Hw Hbig Hwh. unfold scaledSize.
  assert (E : (w >? m) || (h >? m) = true).
  { destruct (Z.gtb_spec w m); destruct (Z.gtb_spec h m); simpl; auto; lia. }
  rewrite E. destruct (Z.gtb_spec w h); [|lia].
  rewrite round_ratio by lia. reflexivity.
Qed.

Lemma scaledSize_tall (w h m : Z) :
  0 < h -> (m < w \/ m < h) -> w <= h ->
  scaledSize w h m = ((2 * w * m + h) / (2 * h), m).
Proof.
  intros Hh Hbig Hwh. unfold scaledSize.
  assert (E : (w >? m) || (h >? m) = true).
  { destruct (Z.gtb_spec w m); destruct (Z.gtb_spec h m); simpl; auto; lia. }
  rewrite E. destruct (Z.gtb_spec w h); [lia|].
  rewrite round_ratio by lia. reflexivity.
Qed.

(** [(2 a m + c) / (2 c)], the rounded [a m / c], for [0 <= a <= c]. *)
Lemma rounded_ratio_bounds (a c m : Z) :
  0 < c -> 0 <= a <= c -> 0 <= m ->
  0 <= (2 * a * m + c) / (2 * c) <= m
  /\ (0 < (2 * a * m + c) / (2 * c) <-> c <= 2 * a * m).
Proof.
  intros Hc Ha Hm.
  assert (H0 : 0 <= 2 * a * m) by nia.
  repeat split.
  - apply Z.div_pos; lia.
  - enough ((2 * a * m + c) / (2 * c) < m + 1) by lia.
    apply Z.div_lt_upper_bound; nia.
  - intro Hpos.
    destruct (Z_lt_le_dec (2 * a * m) c) as [Hlt|Hge]; [|exact Hge].
    rewrite Z.div_small in Hpos; lia.
  - intro Hge. apply Z.div_str_pos. lia.
Qed.

(** The rounded ratio is a nearest integer of [a m / c]. *)
Lemma rounded_ratio_error (a c m : Z) :
  0 < c ->
  - c <= 2 * a * m - 2 * c * ((2 * a * m + c) / (2 * c)) < c.
Proof.
  intro Hc.
  pose proof (Z.div_mod (2 * a * m + c) (2 * c) ltac:(lia)) as Hdm.
  pose proof (Z.mod_pos_bound (2 * a * m + c) (2 * c) ltac:(lia)) as Hmod.
  nia.
Qed.

(** ** The filter and the numbering of the triangles *)

Lemma idsFrom_succ (first : Z) (n : nat) :
  idsFrom first (Datatypes.S n) = first :: idsFrom (first + 1) n.
Proof.
  unfold idsFrom. simpl. rewrite Z.add_0_r. f_equal.
  rewrite <- seq_shift, map_map. apply map_ext. intro k. lia.
Qed.

Lemma idsFrom_In (first : Z) (n : nat) (v : Z) :
  In v (idsFrom first n) <-> first <= v < first + Z.of_nat n.
Proof.
  unfold idsFrom. rewrite in_map_iff. split.
  - intros (k & <- & Hk). apply in_seq in Hk. lia.
  - intros Hv. exists (Z.to_nat (v - first)). split; [lia|].
    apply in_seq. lia.
Qed.

Lemma kept_unfold (w h : Z) (v : Vertices) :
  kept w h v =
  if someOutside w h v then false
  else if JsMath.ltb (getArea v) 1 then false else true.
Proof.
  unfold kept. destruct (someOutside w h v); simpl; [reflexivity|].
  destruct (JsMath.ltb (getArea v) 1); reflexivity.
Qed.

Section FilterFacts.

Variable P : Platform.
Variable img : ImageData.
Variable cs : ColorSpace.

Let keptHere := kept (width img) (height img).

(** The loop appends one triangle per kept polygon, in order, numbered
    from [fs_currentId] on. *)
Lemma filterLoop_triangles (polys : list Vertices) :
  forall i st,
    let st' := filterLoop P img cs polys i st in
    let n := List.length (filter keptHere polys) in
    exists fresh,
      fs_triangles st' = fs_triangles st ++ fresh
      /\ map id fresh = idsFrom (fs_currentId st) n
      /\ map vertices fresh = filter keptHere polys
      /\ fs_currentId st' = fs_currentId st + Z.of_nat n
      /\ (forall t, In t fresh ->
          neighbors t = []
          /\ avg_color t = getAverageColor P (vertices t) img cs).
Proof.
  subst keptHere.
  induction polys as [|v rest IH]; intros i st; simpl.
  - exists []. rewrite app_nil_r.
    split; [reflexivity|]. split; [reflexivity|]. split; [reflexivity|].
    split; [simpl; lia|]. intros t [].
  - rewrite kept_unfold.
    destruct (someOutside (width img) (height img) v).
    + apply IH.
    + destruct (JsMath.ltb (getArea v) 1).
      * apply IH.
      * match goal with
        | |- context [filterLoop P img cs rest (i + 1) ?s] =>
            destruct (IH (i + 1) s) as (fresh & Ht & Hid & Hv & Hc & Hn)
        end.
        simpl in Ht, Hid, Hv, Hc.
        eexists (_ :: fresh). rewrite Ht, <- app_assoc. simpl.
        split; [reflexivity|]. split; [|split; [|split]].
        -- rewrite Hid. symmetry. apply idsFrom_succ.
        -- rewrite Hv. reflexivity.
        -- rewrite Hc. lia.
        -- intros t [<-|Hin]; [split; reflexivity | now apply Hn].
Qed.

Lemma map_get_set (m : IndexMap) (k v k' v' : Z) :
  map_get (map_set m k v) k' = Some v' ->
  v' = v \/ map_get m k' = Some v'.
Proof.
  induction m as [|[k0 v0] rest IH]; simpl.
  - destruct (Z.eqb_spec k k'); [|discriminate].
    intros [= <-]. now left.
  - destruct (Z.eqb_spec k0 k) as [->|Hne]; simpl.
    + destruct (Z.eqb_spec k k'); [intros [= <-]; now left | now right].
    + destruct (Z.eqb_spec k0 k'); [now right | exact IH].
Qed.

Lemma filterLoop_map (polys : list Vertices) :
  forall i st lo,
    valuesWithin (fs_map st) lo (fs_currentId st) ->
    lo <= fs_currentId st ->
    let st' := filterLoop P img cs polys i st in
    valuesWithin (fs_map st') lo (fs_currentId st').
Proof.
  induction polys as [|v rest IH]; intros i st lo Hm Hlo; simpl.
  - exact Hm.
  - destruct (someOutside (width img) (height img) v); [now apply IH|].
    destruct (JsMath.ltb (getArea v) 1); [now apply IH|].
    apply IH; simpl; [|lia].
    intros k x Hget. apply map_get_set in Hget as [->|Hold]; [lia|].
    apply Hm in Hold. lia.
Qed.

End FilterFacts.

(** ** The adjacency step *)

Lemma pushNeighbor_fold (m : IndexMap) (ns : list Z) :
  forall acc x,
    In x (fold_left (pushNeighbor m) ns acc) ->
    In x acc \/ (exists k, map_get m k = Some x).
Proof.
  induction ns as [|n rest IH]; intros acc x Hx; simpl in Hx.
  - now left.
  - apply IH in Hx as [Hacc|Hm]; [|now right].
    unfold pushNeighbor in Hacc.
    destruct (map_get m n) as [v|] eqn:Hget; [|now left].
    destruct (v =? 0); [now left|].
    apply in_app_or in Hacc as [Hacc|[<-|[]]]; [now left|].
    right. now exists n.
Qed.

Lemma resolveNeighbors_id (d : Delaunay) (m : IndexMap) (t : Triangle) :
  id (resolveNeighbors d m t) = id t.
Proof.
  unfold resolveNeighbors.
  destruct (find _ m) as [[k v]|]; reflexivity.
Qed.

Lemma resolveNeighbors_vertices (d : Delaunay) (m : IndexMap) (t : Triangle) :
  vertices (resolveNeighbors d m t) = vertices t.
Proof.
  unfold resolveNeighbors.
  destruct (find _ m) as [[k v]|]; reflexivity.
Qed.

Lemma resolveNeighbors_avg_color (d : Delaunay) (m : IndexMap) (t : Triangle) :
  avg_color (resolveNeighbors d m t) = avg_color t.
Proof.
  unfold resolveNeighbors.
  destruct (find _ m) as [[k v]|]; reflexivity.
Qed.

Lemma resolveNeighbors_neighbors (d : Delaunay) (m : IndexMap)
  (t : Triangle) (x : Z) :
  In x (neighbors (resolveNeighbors d m t)) ->
  In x (neighbors t) \/ (exists k, map_get m k = Some x).
Proof.
  unfold resolveNeighbors.
  destruct (find _ m) as [[k v]|]; simpl; [|now left].
  apply pushNeighbor_fold.
Qed.

(** ** The shape of a successful generation *)

Lemma generate_Ok (P : Platform) (fuel : nat) (element : HTMLImageElement)
  (name : string) (settings : Settings) (out : LowPolyOutput) :
  generateLowPolyData P fuel element name settings = Ok out ->
  exists img sampled,
    getScaledImageData P element (maxSize settings) = Ok img
    /\ samplePoints P fuel img settings = Ok sampled
    /\ out_width (image out) = width img
    /\ out_height (image out) = height img
    /\ let pts := addBorderPoints sampled (width img) (height img) in
       let st := filtered P img (colorSpace settings) pts in
       triangles out =
       if withNeighbors settings
       then map (resolveNeighbors (d3_Delaunay_from P pts) (fs_map st))
                (fs_triangles st)
       else fs_triangles st.
Proof.
  unfold generateLowPolyData. intro H.
  destruct (getScaledImageData P element (maxSize settings))
    as [img| |] eqn:Himg; simpl in H; try discriminate.
  destruct (samplePoints P fuel img settings) as [sampled| |] eqn:Hs;
    simpl in H; try discriminate.
  injection H as <-. exists img, sampled. simpl.
  repeat split; auto.
Qed.

(** ** Vertex bounds *)

Lemma ltb_false (a b : Q) : JsMath.ltb a b = false -> (b <= a)%Q.
Proof.
  unfold JsMath.ltb. intro H. apply negb_false_iff in H.
  now apply Qle_bool_iff.
Qed.

Lemma ltb_true (a b : Q) : JsMath.ltb a b = true -> (a < b)%Q.
Proof.
  unfold JsMath.ltb. intro H. apply negb_true_iff in H.
  apply Qnot_le_lt. intro Hle. apply Qle_bool_iff in Hle. congruence.
Qed.

Lemma outsideCanvas_false (w h : Z) (p : Point) :
  outsideCanvas w h p = false -> withinCanvas w h p.
Proof.
  unfold outsideCanvas, withinCanvas. intro H.
  repeat (apply orb_false_iff in H; destruct H as [H ?]).
  repeat split; apply ltb_false; assumption.
Qed.

Lemma kept_withinCanvas (w h : Z) (v : Vertices) (p : Point) :
  kept w h v = true -> In p (vertexList v) -> withinCanvas w h p.
Proof.
  unfold kept, someOutside. destruct v as [[a b] c]. intros H Hp.
  apply andb_true_iff in H as [H _]. apply negb_true_iff in H.
  apply orb_false_iff in H as [H Hc]. apply orb_false_iff in H as [Ha Hb].
  simpl in Hp. destruct Hp as [<-|[<-|[<-|[]]]];
    apply outsideCanvas_false; assumption.
Qed.

(** The triangles of a result carry the ids and the vertices the filter
    gave them, and every neighbour id is a value of the index map. *)
Lemma generate_triangles (P : Platform) (fuel : nat)
  (element : HTMLImageElement) (name : string) (settings : Settings)
  (out : LowPolyOutput) :
  generateLowPolyData P fuel element name settings = Ok out ->
  exists img pts,
    out_width (image out) = width img
    /\ out_height (image out) = height img
    /\ map id (triangles out)
       = map id (fs_triangles (filtered P img (colorSpace settings) pts))
    /\ map vertices (triangles out)
       = map vertices (fs_triangles (filtered P img (colorSpace settings) pts))
    /\ (forall t x, In t (triangles out) -> In x (neighbors t) ->
        exists k,
          map_get (fs_map (filtered P img (colorSpace settings) pts)) k
          = Some x).
Proof.
  intro H. apply generate_Ok in H as (img & sampled & _ & _ & Hw & Hh & Ht).
  exists img, (addBorderPoints sampled (width img) (height img)).
  cbv zeta in Ht. set (pts := addBorderPoints _ _ _) in *.
  set (st := filtered P img (colorSpace settings) pts) in *.
  assert (Hnone : forall t, In t (fs_triangles st) -> neighbors t = []).
  { subst st. unfold filtered.
    destruct (filterLoop_triangles P img (colorSpace settings)
                (trianglePolygons (d3_Delaunay_from P pts)) 0 initialState)
      as (fresh & Hf & _ & _ & _ & Hn).
    simpl in Hf. rewrite Hf. intros t Hin. now apply Hn. }
  repeat split; auto.
  - rewrite Ht. destruct (withNeighbors settings); [|reflexivity].
    rewrite map_map. apply map_ext. apply resolveNeighbors_id.
  - rewrite Ht. destruct (withNeighbors settings); [|reflexivity].
    rewrite map_map. apply map_ext. apply resolveNeighbors_vertices.
  - intros t x Hin Hx. rewrite Ht in Hin.
    destruct (withNeighbors settings).
    + apply in_map_iff in Hin as (t0 & <- & Hin).
      apply resolveNeighbors_neighbors in Hx as [Hx|Hx]; [|exact Hx].
      rewrite (Hnone _ Hin) in Hx. destruct Hx.
    + rewrite (Hnone _ Hin) in Hx. destruct Hx.
Qed.

(** The filter state of a generation: ids [1 .. n] on the kept polygons,
    and an index map with values in [1 .. n]. *)
Lemma filtered_spec (P : Platform) (img : ImageData) (cs : ColorSpace)
  (pts : list Point) :
  let st := filtered P img cs pts in
  let polys := trianglePolygons (d3_Delaunay_from P pts) in
  let n := List.length (filter (kept (width img) (height img)) polys) in
  map id (fs_triangles st) = idsFrom 1 n
  /\ map vertices (fs_triangles st)
     = filter (kept (width img) (height img)) polys
  /\ valuesWithin (fs_map st) 1 (1 + Z.of_nat n).
Proof.
  cbv zeta. unfold filtered.
  destruct (filterLoop_triangles P img cs
              (trianglePolygons (d3_Delaunay_from P pts)) 0 initialState)
    as (fresh & Hf & Hid & Hv & Hc & _).
  simpl in Hf, Hid. change (fs_currentId initialState) with 1 in Hc.
  assert (Hm := filterLoop_map P img cs
                  (trianglePolygons (d3_Delaunay_from P pts)) 0
                  initialState 1).
  cbv zeta in Hm. rewrite Hc in Hm.
  rewrite Hf. split; [exact Hid|]. split; [exact Hv|].
  apply Hm; simpl; [|lia]. intros k v [=].
Qed.

(** The ids of a result, and the polygons its triangles come from. *)
Lemma generate_ids (P : Platform) (fuel : nat)
  (element : HTMLImageElement) (name : string) (settings : Settings)
  (out : LowPolyOutput) :
  generateLowPolyData P fuel element name settings = Ok out ->
  map id (triangles out) = idsFrom 1 (List.length (triangles out))
  /\ exists img pts,
       map vertices (triangles out)
       = filter (kept (width img) (height img))
           (trianglePolygons (d3_Delaunay_from P pts)).
Proof.
  intro H.
  apply generate_triangles in H as (img & pts & _ & _ & Hid & Hv & _).
  destruct (filtered_spec P img (colorSpace settings) pts) as (Hi & Hk & _).
  rewrite Hi in Hid. rewrite Hk in Hv.
  assert (Hlen : List.length (triangles out)
                 = List.length (filter (kept (width img) (height img))
                                  (trianglePolygons (d3_Delaunay_from P pts)))).
  { rewrite <- Hv. now rewrite length_map. }
  rewrite <- Hlen in Hid.
  split; [exact Hid|]. exists img, pts. exact Hv.
Qed.

(** C5.  Every vertex of every triangle of a result lies in the closed
    rectangle [0 <= x <= width], [0 <= y <= height], for the width and
    height the result reports (the size after scaling). *)
Theorem vertices_within_canvas (P : Platform) (fuel : nat)
  (element : HTMLImageElement) (name : string) (settings : Settings)
  (out : LowPolyOutput) :
  generateLowPolyData P fuel element name settings = Ok out ->
  forall t p,
    In t (triangles out) -> In p (vertexList (vertices t)) ->
    withinCanvas (out_width (image out)) (out_height (image out)) p.
Proof.
  intros H t p Ht Hp.
  apply generate_triangles in H as (img & pts & -> & -> & _ & Hv & _).
  destruct (filtered_spec P img (colorSpace settings) pts) as (_ & Hk & _).
  rewrite Hk in Hv.
  assert (Hin : In (vertices t) (map vertices (triangles out)))
    by now apply in_map.
  rewrite Hv in Hin. apply filter_In in Hin as [_ Hkept].
  eapply kept_withinCanvas; eassumption.
Qed.

Lemma vertices_within_canvas_witness :
  withinCanvas (out_width (image Demo.gridOutput))
    (out_height (image Demo.gridOutput))
    (fst (fst (vertices (nth 0 (triangles Demo.gridOutput) Demo.noTriangle)))).
Proof.
  assert (E : generateLowPolyData Ref.platform 0 Demo.red4 "input.png"
                Demo.gridSettings = Ok Demo.gridOutput)
    by (vm_compute; reflexivity).
  apply (vertices_within_canvas Ref.platform 0 Demo.red4 "input.png"
           Demo.gridSettings Demo.gridOutput E
           (nth 0 (triangles Demo.gridOutput) Demo.noTriangle)).
  - apply nth_In. vm_compute. lia.
  - vm_compute. left. reflexivity.
Defined.

(** C6.  The ids of the triangles of a result are [1, 2, ..., N] in list
    order, [N] being the number of triangles: an id is used exactly when
    it lies in [1 .. N], none twice, and the triangles are the polygons
    the filter kept, in the triangulator's order. *)
Theorem triangle_ids_dense (P : Platform) (fuel : nat)
  (element : HTMLImageElement) (name : string) (settings : Settings)
  (out : LowPolyOutput) :
  generateLowPolyData P fuel element name settings = Ok out ->
  map id (triangles out) = idsFrom 1 (List.length (triangles out))
  /\ NoDup (map id (triangles out))
  /\ (forall v, In v (map id (triangles out))
                <-> 1 <= v <= Z.of_nat (List.length (triangles out)))
  /\ exists img pts,
       map vertices (triangles out)
       = filter (kept (width img) (height img))
           (trianglePolygons (d3_Delaunay_from P pts)).
Proof.
  intro H. apply generate_ids in H as (Hid & Hv).
  split; [exact Hid|]. rewrite Hid. split; [|split].
  - unfold idsFrom. apply Injective_map_NoDup; [|apply seq_NoDup].
    intros a b Hab. lia.
  - intro v. rewrite idsFrom_In. lia.
  - exact Hv.
Qed.

Lemma triangle_ids_dense_witness :
  map id (triangles Demo.gridOutput)
  = idsFrom 1 (List.length (triangles Demo.gridOutput)).
Proof.
  assert (E : generateLowPolyData Ref.platform 0 Demo.red4 "input.png"
                Demo.gridSettings = Ok Demo.gridOutput)
    by (vm_compute; reflexivity).
  exact (proj1 (triangle_ids_dense Ref.platform 0 Demo.red4 "input.png"
                  Demo.gridSettings Demo.gridOutput E)).
Defined.

(** C7.  Every id in a neighbour list of a result is the id of a triangle
    of that result, a member of [1 .. N]; such an id only occurs when
    [withNeighbors] is set, the lists are empty otherwise. *)
Theorem neighbor_ids_closed (P : Platform) (fuel : nat)
  (element : HTMLImageElement) (name : string) (settings : Settings)
  (out : LowPolyOutput) :
  generateLowPolyData P fuel element name settings = Ok out ->
  forall t x,
    In t (triangles out) -> In x (neighbors t) ->
    withNeighbors settings = true
    /\ 1 <= x <= Z.of_nat (List.length (triangles out))
    /\ exists t', In t' (triangles out) /\ id t' = x.
Proof.
  intros H t x Ht Hx.
  assert (Hwn : withNeighbors settings = true).
  { apply generate_Ok in H as (img & sampled & _ & _ & _ & _ & Htri).
    cbv zeta in Htri. destruct (withNeighbors settings); [reflexivity|].
    exfalso. rewrite Htri in Ht. unfold filtered in Ht.
    match type of Ht with
    | In t (fs_triangles (filterLoop ?P ?i ?c ?ps 0 initialState)) =>
        destruct (filterLoop_triangles P i c ps 0 initialState)
          as (fresh & Hf & _ & _ & _ & Hn)
    end.
    simpl in Hf. rewrite Hf in Ht.
    rewrite (proj1 (Hn _ Ht)) in Hx. destruct Hx. }
  split; [exact Hwn|].
  pose proof (generate_ids P fuel element name settings out H) as [Hids _].
  apply generate_triangles in H as (img & pts & _ & _ & Hid & Hv & Hnb).
  destruct (filtered_spec P img (colorSpace settings) pts) as (Hi & Hk & Hm).
  destruct (Hnb t x Ht Hx) as (k & Hget). apply Hm in Hget.
  assert (Hlen : List.length (triangles out)
                 = List.length (filter (kept (width img) (height img))
                                  (trianglePolygons (d3_Delaunay_from P pts)))).
  { rewrite <- Hk, <- Hv. now rewrite !length_map. }
  rewrite <- Hlen in Hget. split; [lia|].
  assert (Hin : In x (map id (triangles out))).
  { rewrite Hids. apply idsFrom_In. lia. }
  apply in_map_iff in Hin as (t' & Heq & Hin). now exists t'.
Qed.

Lemma neighbor_ids_closed_witness :
  withNeighbors Demo.gridSettings = true
  /\ 1 <= 2 <= Z.of_nat (List.length (triangles Demo.gridOutput))
  /\ exists t', In t' (triangles Demo.gridOutput) /\ id t' = 2.
Proof.
  assert (E : generateLowPolyData Ref.platform 0 Demo.red4 "input.png"
                Demo.gridSettings = Ok Demo.gridOutput)
    by (vm_compute; reflexivity).
  apply (neighbor_ids_closed Ref.platform 0 Demo.red4 "input.png"
           Demo.gridSettings Demo.gridOutput E
           (nth 0 (triangles Demo.gridOutput) Demo.noTriangle) 2).
  - apply nth_In. vm_compute. lia.
  - vm_compute. left. reflexivity.
Defined.

(** ** The image normalizer *)

(** The picture [Demo.panorama] (1024 x 1) with [maxSize = 256]: the height
    is computed as [Math.round(1 * (256 / 1024)) = 0], and no platform makes
    the normalizer return a buffer of positive height for it. *)
Lemma panorama_height_zero :
  scaledSize 1024 1 256 = (256, 0)
  /\ ~ (exists P d,
          getScaledImageData P Demo.panorama 256 = Ok d /\ 0 < height d).
Proof.
  split; [vm_compute; reflexivity|].
  intros (P & d & H & Hpos). unfold getScaledImageData in H.
  destruct (negb (getContext P)); [discriminate|].
  change (scaledSize (img_width Demo.panorama) (img_height Demo.panorama) 256)
    with (256, 0) in H.
  cbv beta iota in H.
  destruct (drawAndRead P Demo.panorama 256 0); [|discriminate].
  injection H as <-. simpl in Hpos. lia.
Qed.

(** C9 (amended).  For a picture of positive width and height and a
    positive [maxSize], the buffer the normalizer returns has the size of
    the picture when neither dimension exceeds [maxSize]; otherwise its
    larger dimension is [maxSize] and its other dimension is a nearest
    integer of [other * maxSize / larger] (at a half-integer either
    neighbour), not negative and not above [maxSize]; it is positive when
    [2 * other * maxSize > larger] and 0 when
    [2 * other * maxSize < larger]. *)
Theorem getScaledImageData_size (P : Platform) (element : HTMLImageElement)
  (m : Z) (d : ImageData) :
  0 < img_width element -> 0 < img_height element -> 0 < m ->
  getScaledImageData P element m = Ok d ->
  (img_width element <= m /\ img_height element <= m ->
   width d = img_width element /\ height d = img_height element)
  /\ (m < img_width element \/ m < img_height element ->
      img_height element < img_width element ->
      width d = m
      /\ 2 * Z.abs (height d * img_width element - img_height element * m)
         <= img_width element
      /\ 0 <= height d <= m
      /\ (img_width element < 2 * img_height element * m -> 0 < height d)
      /\ (2 * img_height element * m < img_width element -> height d = 0))
  /\ (m < img_width element \/ m < img_height element ->
      img_width element <= img_height element ->
      height d = m
      /\ 2 * Z.abs (width d * img_height element - img_width element * m)
         <= img_height element
      /\ 0 <= width d <= m
      /\ (img_height element < 2 * img_width element * m -> 0 < width d)
      /\ (2 * img_width element * m < img_height element -> width d = 0)).
Proof.
  intros Hw Hh Hm H. unfold getScaledImageData in H.
  destruct (negb (getContext P)); [discriminate|].
  destruct (scaledSize (img_width element) (img_height element) m)
    as [w h] eqn:Hs.
  destruct (drawAndRead P element w h); [|discriminate].
  assert (Hd : width d = w /\ height d = h)
    by (injection H as <-; split; reflexivity).
  destruct Hd as [-> ->]. clear H. repeat apply conj.
  - intros [H1 H2]. rewrite scaledSize_small in Hs by assumption.
    now injection Hs as <- <-.
  - intros Hbig Hlt.
    rewrite scaledSize_wide in Hs by assumption.
    pose proof (f_equal fst Hs) as E1. pose proof (f_equal snd Hs) as E2.
    cbn [fst snd] in E1, E2. subst w h. clear Hs.
    destruct (rounded_ratio_bounds (img_height element) (img_width element) m)
      as [Hb Hp]; try lia.
    pose proof (rounded_ratio_error (img_height element) (img_width element)
                  m Hw) as He.
    set (r := (2 * img_height element * m + img_width element)
              / (2 * img_width element)) in *.
    split; [reflexivity|]. split; [nia|]. split; [exact Hb|].
    split; [intro Hgt; apply Hp; lia|].
    intro Hsmall. destruct (Z_lt_le_dec 0 r) as [Hpos|Hle]; [|lia].
    apply Hp in Hpos. lia.
  - intros Hbig Hle.
    rewrite scaledSize_tall in Hs by assumption.
    pose proof (f_equal fst Hs) as E1. pose proof (f_equal snd Hs) as E2.
    cbn [fst snd] in E1, E2. subst w h. clear Hs.
    destruct (rounded_ratio_bounds (img_width element) (img_height element) m)
      as [Hb Hp]; try lia.
    pose proof (rounded_ratio_error (img_width element) (img_height element)
                  m Hh) as He.
    set (r := (2 * img_width element * m + img_height element)
              / (2 * img_height element)) in *.
    split; [reflexivity|]. split; [nia|]. split; [exact Hb|].
    split; [intro Hgt; apply Hp; lia|].
    intro Hsmall. destruct (Z_lt_le_dec 0 r) as [Hpos|Hle']; [|lia].
    apply Hp in Hpos. lia.
Qed.

Lemma getScaledImageData_size_witness :
  width Demo.posterData = 4
  /\ 2 * Z.abs (height Demo.posterData * 8 - 4 * 4) <= 8
  /\ 0 <= height Demo.posterData <= 4
  /\ (8 < 2 * 4 * 4 -> 0 < height Demo.posterData)
  /\ (2 * 4 * 4 < 8 -> height Demo.posterData = 0).
Proof.
  assert (E : getScaledImageData Ref.platform Demo.poster 4
              = Ok Demo.posterData) by (vm_compute; reflexivity).
  apply (proj1 (proj2 (getScaledImageData_size Ref.platform Demo.poster 4
                         Demo.posterData ltac:(simpl; lia) ltac:(simpl; lia)
                         ltac:(lia) E))).
  - simpl. lia.
  - simpl. lia.
Defined.

(** ** A target point count of zero or less *)

Lemma addBorderPoints_nil (w h : Z) : addBorderPoints [] w h = corners w h.
Proof. reflexivity. Qed.

Lemma samplePoints_nonpositive (P : Platform) (fuel : nat) (img : ImageData)
  (settings : Settings) :
  points settings <= 0 ->
  sampler settings = EDGE_AWARE \/ sampler settings = GRID ->
  samplePoints P fuel img settings = Ok [].
Proof.
  intros Hn [Hs|Hs]; unfold samplePoints; rewrite Hs.
  - unfold sampleEdgeAware.
    replace (Z.to_nat (points settings * 10)) with O by lia. reflexivity.
  - unfold sampleGrid. destruct (Z.leb_spec (points settings) 0); [|lia].
    reflexivity.
Qed.

(** A run with [points = 0] resolves with a result. *)
Lemma zero_points_accepted :
  generateLowPolyData Ref.platform 0 Demo.red4 "input.png" Demo.noPoints
  = Ok Demo.noPointsOutput
  /\ points Demo.noPoints = 0
  /\ p_points (params Demo.noPointsOutput) = 0
  /\ map id (triangles Demo.noPointsOutput) = [1; 2].
Proof. vm_compute. repeat split; reflexivity. Qed.

(** C1 (amended).  The generation does not look at the sign of the target
    point count.  With [points <= 0] and the grid or the edge-aware
    sampler, whenever the canvas can be read the sampler returns no point,
    the triangulator is given the four corners alone, and the generation
    resolves with a result: the kept faces of that triangulation, under
    the parameters as given. *)
Theorem generate_nonpositive_points (P : Platform) (fuel : nat)
  (element : HTMLImageElement) (name : string) (settings : Settings)
  (img : ImageData) :
  points settings <= 0 ->
  sampler settings = EDGE_AWARE \/ sampler settings = GRID ->
  getScaledImageData P element (maxSize settings) = Ok img ->
  exists out,
    generateLowPolyData P fuel element name settings = Ok out
    /\ p_points (params out) = points settings
    /\ map vertices (triangles out)
       = filter (kept (width img) (height img))
           (trianglePolygons
              (d3_Delaunay_from P (corners (width img) (height img)))).
Proof.
  intros Hn Hs Himg.
  pose proof (samplePoints_nonpositive P fuel img settings Hn Hs) as Hpts.
  unfold generateLowPolyData. rewrite Himg. simpl bind. rewrite Hpts.
  simpl bind. rewrite addBorderPoints_nil.
  eexists. split; [reflexivity|]. split; [reflexivity|].
  cbn [triangles].
  destruct (filtered_spec P img (colorSpace settings)
              (corners (width img) (height img))) as (_ & Hv & _).
  unfold filtered, initialState in Hv.
  destruct (withNeighbors settings).
  - rewrite map_map.
    erewrite map_ext; [exact Hv|]. apply resolveNeighbors_vertices.
  - exact Hv.
Qed.

Lemma generate_nonpositive_points_witness :
  exists out,
    generateLowPolyData Ref.platform 0 Demo.red4 "input.png" Demo.noPoints
    = Ok out
    /\ p_points (params out) = points Demo.noPoints
    /\ map vertices (triangles out)
       = filter (kept (width Demo.red4Data) (height Demo.red4Data))
           (trianglePolygons
              (d3_Delaunay_from Ref.platform
                 (corners (width Demo.red4Data) (height Demo.red4Data)))).
Proof.
  apply (generate_nonpositive_points Ref.platform 0 Demo.red4 "input.png"
           Demo.noPoints Demo.red4Data).
  - simpl. lia.
  - left. reflexivity.
  - vm_compute. reflexivity.
Defined.

(** ** The border augmenter *)

Lemma fold_borderStep (k : Z) (w h : Q) (l : list Z) :
  forall pts,
    fold_left (borderStep k w h) l pts = pts ++ flat_map (edgePoints k w h) l.
Proof.
  induction l as [|i rest IH]; intro pts; simpl.
  - now rewrite app_nil_r.
  - rewrite IH. unfold borderStep at 1. now rewrite <- app_assoc.
Qed.

Lemma range_length (a b : Z) : List.length (range a b) = Z.to_nat (b - a).
Proof. unfold range. now rewrite length_map, length_seq. Qed.

Lemma range_In (a b x : Z) : In x (range a b) <-> a <= x < b.
Proof.
  unfold range. rewrite in_map_iff. split.
  - intros (k & <- & Hk). apply in_seq in Hk. lia.
  - intro Hx. exists (Z.to_nat (x - a)). split; [lia|]. apply in_seq. lia.
Qed.

(** [ceil_half_sqrt n] is [ceil(sqrt(n) / 2)]: the least [k >= 0] with
    [4 k^2 >= n]. *)
Lemma ceil_half_sqrt_spec (n : Z) :
  0 < n ->
  let k := JsMath.ceil_half_sqrt n in
  0 < k /\ n <= 4 * k * k /\ 4 * (k - 1) * (k - 1) < n.
Proof.
  intros Hn k. subst k. unfold JsMath.ceil_half_sqrt.
  pose proof (Z.sqrt_up_spec n Hn) as [Hlo Hhi].
  pose proof (Z.sqrt_up_pos n) as Hpos.
  set (r := Z.sqrt_up n) in *.
  assert (Hr : 0 < r) by (apply Hpos; lia).
  replace (Z.pred r) with (r - 1) in Hlo by lia.
  pose proof (Z.div_mod (r + 1) 2 ltac:(lia)) as Hdm.
  pose proof (Z.mod_pos_bound (r + 1) 2 ltac:(lia)) as Hmod.
  set (q := (r + 1) / 2) in *.
  repeat split; nia.
Qed.

(** With one sampled point the formula [ceil(sqrt(n) / 2) - 1] of the
    sampled count gives no interior point, and the augmenter pushes one on
    every edge: nine points in all, the middle [(2, 0)] of the top edge
    among them. *)
Lemma border_of_one_point :
  JsMath.ceil_half_sqrt 1 - 1 = 0
  /\ List.length (addBorderPoints [(1, 1)%Q] 4 4) = 9%nat
  /\ existsb (fun p => Qeq_bool (fst p) 2 && Qeq_bool (snd p) 0)
       (addBorderPoints [(1, 1)%Q] 4 4) = true.
Proof. vm_compute. repeat split; reflexivity. Qed.

(** C8 (amended).  The augmenter appends the four corners and then, for
    [i = 1 .. k - 1], the points at the fraction [i / k] of the top, the
    bottom, the left and the right edge, where
    [k = ceil(sqrt(n + 4) / 2)] for the sampled count [n]: the count is
    read after the corners have been pushed.  Every edge gets [k - 1]
    evenly spaced points strictly between its ends. *)
Theorem addBorderPoints_spec (pts : list Point) (w h : Z) :
  addBorderPoints pts w h
  = pts ++ corners w h
        ++ flat_map
             (edgePoints
                (JsMath.ceil_half_sqrt (Z.of_nat (List.length pts) + 4))
                (inject_Z w) (inject_Z h))
             (range 1 (JsMath.ceil_half_sqrt (Z.of_nat (List.length pts) + 4)))
  /\ List.length
       (range 1 (JsMath.ceil_half_sqrt (Z.of_nat (List.length pts) + 4)))
     = Z.to_nat (JsMath.ceil_half_sqrt (Z.of_nat (List.length pts) + 4) - 1)
  /\ (0 < JsMath.ceil_half_sqrt (Z.of_nat (List.length pts) + 4)
      /\ Z.of_nat (List.length pts) + 4
         <= 4 * JsMath.ceil_half_sqrt (Z.of_nat (List.length pts) + 4)
              * JsMath.ceil_half_sqrt (Z.of_nat (List.length pts) + 4)
      /\ 4 * (JsMath.ceil_half_sqrt (Z.of_nat (List.length pts) + 4) - 1)
           * (JsMath.ceil_half_sqrt (Z.of_nat (List.length pts) + 4) - 1)
         < Z.of_nat (List.length pts) + 4)
  /\ (forall i,
        In i (range 1 (JsMath.ceil_half_sqrt (Z.of_nat (List.length pts) + 4)))
        -> (0 < inject_Z i
                / inject_Z (JsMath.ceil_half_sqrt
                              (Z.of_nat (List.length pts) + 4)))%Q
           /\ (inject_Z i
               / inject_Z (JsMath.ceil_half_sqrt
                             (Z.of_nat (List.length pts) + 4)) < 1)%Q).
Proof.
  set (k := JsMath.ceil_half_sqrt (Z.of_nat (List.length pts) + 4)).
  assert (Hk : 0 < k /\ Z.of_nat (List.length pts) + 4 <= 4 * k * k
               /\ 4 * (k - 1) * (k - 1) < Z.of_nat (List.length pts) + 4).
  { apply ceil_half_sqrt_spec. lia. }
  split; [|split; [|split]].
  - unfold addBorderPoints.
    replace (Z.of_nat (List.length (pts ++ _)))
      with (Z.of_nat (List.length pts) + 4)
      by (rewrite length_app; simpl; lia).
    fold k. rewrite fold_borderStep, <- app_assoc. reflexivity.
  - apply range_length.
  - exact Hk.
  - intros i Hi. apply range_In in Hi.
    assert (Hkq : (0 < inject_Z k)%Q) by (unfold Qlt; simpl; lia).
    split.
    + apply Qlt_shift_div_l; [exact Hkq|].
      rewrite Qmult_0_l. unfold Qlt; simpl; lia.
    + apply Qlt_shift_div_r; [exact Hkq|].
      rewrite Qmult_1_l. unfold Qlt; simpl; lia.
Qed.

(** ** Where the samplers put their points *)

(** The fractional part the generator returns lies in [[0, 1)], whatever
    [Math.sin] computes. *)
Lemma createPRNG_unit (P : Platform) (s : Q) :
  (0 <= fst (createPRNG P s))%Q /\ (fst (createPRNG P s) < 1)%Q.
Proof.
  unfold createPRNG, JsMath.floor. cbn [fst].
  set (x := (Math_sin P s * 10000)%Q).
  pose proof (Qfloor_le x) as Hlo. pose proof (Qlt_floor x) as Hhi.
  rewrite inject_Z_plus in Hhi. change (inject_Z 1) with 1%Q in Hhi.
  set (f := inject_Z (Qfloor x)) in *.
  split; lra.
Qed.

Lemma fold_left_invariant {A B : Type} (Inv : A -> Prop) (f : A -> B -> A)
  (l : list B) :
  (forall acc x, Inv acc -> Inv (f acc x)) ->
  forall init, Inv init -> Inv (fold_left f l init).
Proof.
  intro Hstep. induction l as [|x rest IH]; intros init Hinit; simpl.
  - exact Hinit.
  - apply IH, Hstep, Hinit.
Qed.

Lemma floor_scaled (u : Q) (w : Z) :
  (0 <= u)%Q -> (u < 1)%Q -> 0 < w ->
  0 <= JsMath.floor (u * inject_Z w)%Q <= w - 1.
Proof.
  intros Hu0 Hu1 Hw. unfold JsMath.floor.
  assert (Hwq : (0 < inject_Z w)%Q) by (unfold Qlt; simpl; lia).
  split.
  - change 0 with (Qfloor 0). apply Qfloor_resp_le.
    apply Qmult_le_0_compat; [exact Hu0 | now apply Qlt_le_weak].
  - enough (Qfloor (u * inject_Z w) < w) by lia.
    rewrite Zlt_Qlt.
    apply Qle_lt_trans with (u * inject_Z w)%Q; [apply Qfloor_le|].
    rewrite <- (Qmult_1_l (inject_Z w)) at 2.
    apply Qmult_lt_compat_r; assumption.
Qed.

Lemma clamp_within (w v : Q) :
  (0 <= w)%Q ->
  (0 <= JsMath.min w (JsMath.max 0 v))%Q /\ (JsMath.min w (JsMath.max 0 v) <= w)%Q.
Proof.
  intro Hw. unfold JsMath.min, JsMath.max. split.
  - apply Q.min_glb; [exact Hw | apply Q.le_max_l].
  - apply Q.le_min_l.
Qed.

Section SamplerFacts.

Variable S : Type.
Variable random : S -> Q * S.

(** The grid sampler clamps every coordinate. *)
Lemma sampleGrid_within (w h n : Z) (s : S) :
  0 <= w -> 0 <= h ->
  Forall (withinCanvas w h) (fst (sampleGrid S random w h n s)).
Proof.
  intros Hw Hh. unfold sampleGrid.
  destruct (n <=? 0); [constructor|].
  apply (fold_left_invariant
           (fun acc : list Point * S => Forall (withinCanvas w h) (fst acc)));
    [|constructor].
  intros acc i Hacc. unfold gridRow.
  apply (fold_left_invariant
           (fun acc : list Point * S => Forall (withinCanvas w h) (fst acc)));
    [|exact Hacc].
  clear acc Hacc. intros [pts s0] j Hacc. simpl in Hacc.
  unfold gridCell.
  destruct (random s0) as [u1 s1]. destruct (random s1) as [u2 s2]. simpl.
  apply Forall_app. split; [exact Hacc|].
  constructor; [|constructor].
  assert (Hwq : (0 <= inject_Z w)%Q) by (unfold Qle; simpl; lia).
  assert (Hhq : (0 <= inject_Z h)%Q) by (unfold Qle; simpl; lia).
  unfold withinCanvas. simpl.
  split; [apply clamp_within, Hwq|].
  split; [apply clamp_within, Hwq|].
  split; apply clamp_within, Hhq.
Qed.

Hypothesis random_unit :
  forall s, (0 <= fst (random s))%Q /\ (fst (random s) < 1)%Q.

(** The edge-aware sampler pushes pixel coordinates. *)
Lemma edgeAwareLoop_pixels (w h n : Z) (edgeMap : list Z) (ew : Q) :
  0 < w -> 0 < h ->
  forall remaining pts s,
    Forall (pixelPoint w h) pts ->
    Forall (pixelPoint w h)
      (fst (edgeAwareLoop S random remaining w h n edgeMap ew pts s)).
Proof.
  intros Hw Hh. induction remaining as [|r IH]; intros pts s Hpts; simpl.
  - exact Hpts.
  - destruct (Z.of_nat (List.length pts) <? n); [|exact Hpts].
    pose proof (random_unit s) as [Ha1 Ha2].
    destruct (random s) as [u1 s1]. simpl in Ha1, Ha2.
    pose proof (random_unit s1) as [Hb1 Hb2].
    destruct (random s1) as [u2 s2]. simpl in Hb1, Hb2.
    destruct (random s2) as [u3 s3].
    apply IH.
    match goal with |- Forall _ (if ?c then _ else _) => destruct c end;
      [|exact Hpts].
    apply Forall_app. split; [exact Hpts|].
    constructor; [|constructor].
    exists (JsMath.floor (u1 * inject_Z w)%Q), (JsMath.floor (u2 * inject_Z h)%Q).
    split; [reflexivity|].
    split; apply floor_scaled; assumption.
Qed.

End SamplerFacts.

(** *** The Poisson-disc sampler stays inside the rectangle *)

Lemma inDomain_withinCanvas (w h : Z) (p : Point) :
  inDomain w h p -> withinCanvas w h p.
Proof.
  intros (H1 & H2 & H3 & H4). repeat split; auto using Qlt_le_weak.
Qed.

Lemma replace_nth_In {A : Type} (n : nat) (v x : A) (l : list A) :
  In x (replace_nth n v l) -> x = v \/ In x l.
Proof.
  revert n. induction l as [|y rest IH]; intros [|n]; simpl; try tauto.
  - intros [<-|H]; auto.
  - intros [<-|H]; auto. apply IH in H. tauto.
Qed.

Lemma splice1_In {A : Type} (n : nat) (x : A) (l : list A) :
  In x (splice1 n l) -> In x l.
Proof.
  revert n. induction l as [|y rest IH]; intros [|n]; simpl; try tauto.
  intros [<-|H]; auto. right. now apply (IH n).
Qed.

Lemma aget_In {A : Type} (l : list A) (i : Z) (x : A) :
  aget l i = Some x -> In x l.
Proof.
  unfold aget. destruct (i <? 0); [discriminate|]. apply nth_error_In.
Qed.

Lemma grid_set_In (g : list (option Point)) (idx : Z) (q p : Point) :
  In (Some p) (grid_set g idx q) -> p = q \/ In (Some p) g.
Proof.
  unfold grid_set. destruct (idx <? 0); [now right|].
  destruct (Z.to_nat idx <? List.length g)%nat.
  - intro H. apply replace_nth_In in H as [[= ->]|H]; auto.
  - intro H. apply in_app_or in H as [H|H]; [now right|].
    apply in_app_or in H as [H|[[= ->]|[]]]; [|now left].
    apply repeat_spec in H. discriminate.
Qed.

Lemma gridPoints_In (g : list (option Point)) (p : Point) :
  In p (gridPoints g) <-> In (Some p) g.
Proof.
  unfold gridPoints. rewrite in_flat_map. split.
  - intros ([q|] & Hc & Hp); simpl in Hp; [|tauto].
    destruct Hp as [<-|[]]. exact Hc.
  - intro H. exists (Some p). split; [exact H | now left].
Qed.

Section PoissonFacts.

Variable S : Type.
Variable random : S -> Q * S.
Variable P : Platform.

Lemma tryCandidates_inDomain (w h : Z) (r cell : Q) (cols rows : Z)
  (g : list (option Point)) (pos : Point) :
  forall k s p idx s',
    tryCandidates S random P k w h r cell cols rows g pos s
    = (Some (p, idx), s') ->
    inDomain w h p.
Proof.
  induction k as [|k IH]; intros s p idx s'; simpl; [discriminate|].
  destruct (random s) as [u1 s1]. destruct (random s1) as [u2 s2].
  set (px := (fst pos + r * (1 + u2) * Math_cos P (2 * Math_PI P * u1))%Q).
  set (py := (snd pos + r * (1 + u2) * Math_sin P (2 * Math_PI P * u1))%Q).
  destruct (JsMath.ltb px 0 || Qle_bool (inject_Z w) px
            || JsMath.ltb py 0 || Qle_bool (inject_Z h) py) eqn:Hout.
  - apply IH.
  - destruct (candidateOk _ _ _ _ _ _ _ _ _); [|apply IH].
    intros [= <- _ _].
    apply orb_false_iff in Hout as [Hout H4].
    apply orb_false_iff in Hout as [Hout H3].
    apply orb_false_iff in Hout as [H1 H2].
    unfold inDomain. simpl.
    repeat split.
    + now apply ltb_false.
    + apply Qnot_le_lt. intro Hle. apply Qle_bool_iff in Hle. congruence.
    + now apply ltb_false.
    + apply Qnot_le_lt. intro Hle. apply Qle_bool_iff in Hle. congruence.
Qed.

Lemma poissonLoop_inDomain (w h : Z) (r cell : Q) (cols rows : Z) :
  forall fuel g active s g' s',
    (forall p, In (Some p) g -> inDomain w h p) ->
    (forall p, In p active -> inDomain w h p) ->
    poissonLoop S random P fuel w h r cell cols rows g active s
    = Ok (g', s') ->
    forall p, In (Some p) g' -> inDomain w h p.
Proof.
  induction fuel as [|fuel IH]; intros g active s g' s' Hg Ha;
    destruct active as [|a0 rest]; cbn [poissonLoop].
  - intros [= <- _]. exact Hg.
  - discriminate.
  - intros [= <- _]. exact Hg.
  - destruct (random s) as [u s1].
    destruct (aget (a0 :: rest) _) as [pos|] eqn:Hpos; [|discriminate].
    destruct (tryCandidates S random P 30 w h r cell cols rows g pos s1)
      as [[[q idx]|] s2] eqn:Htry.
    + apply tryCandidates_inDomain in Htry. apply IH.
      * intros p Hp. apply grid_set_In in Hp as [->|Hp]; auto.
      * intros p Hp. apply in_app_or in Hp as [Hp|[<-|[]]]; auto.
    + apply IH; [exact Hg|].
      intros p Hp. apply splice1_In in Hp. auto.
Qed.

Hypothesis random_unit :
  forall s, (0 <= fst (random s))%Q /\ (fst (random s) < 1)%Q.

Lemma unit_scaled (u : Q) (w : Z) :
  (0 <= u)%Q -> (u < 1)%Q -> 0 < w ->
  (0 <= u * inject_Z w)%Q /\ (u * inject_Z w < inject_Z w)%Q.
Proof.
  intros Hu0 Hu1 Hw.
  assert (Hwq : (0 < inject_Z w)%Q) by (unfold Qlt; simpl; lia).
  split.
  - apply Qmult_le_0_compat; [exact Hu0 | now apply Qlt_le_weak].
  - rewrite <- (Qmult_1_l (inject_Z w)) at 2.
    apply Qmult_lt_compat_r; assumption.
Qed.

Lemma samplePoisson_inDomain (fuel : nat) (w h n : Z) (s : S)
  (pts : list Point) (s' : S) :
  0 < w -> 0 < h ->
  samplePoisson S random P fuel w h n s = Ok (pts, s') ->
  Forall (inDomain w h) pts.
Proof.
  intros Hw Hh. unfold samplePoisson.
  destruct (n <? 0); [discriminate|].
  pose proof (random_unit s) as [Ha1 Ha2].
  destruct (random s) as [u1 s1]. simpl in Ha1, Ha2.
  pose proof (random_unit s1) as [Hb1 Hb2].
  destruct (random s1) as [u2 s2]. simpl in Hb1, Hb2.
  assert (H0 : inDomain w h (u1 * inject_Z w, u2 * inject_Z h)%Q).
  { unfold inDomain. simpl.
    destruct (unit_scaled u1 w Ha1 Ha2 Hw).
    destruct (unit_scaled u2 h Hb1 Hb2 Hh). tauto. }
  destruct (n =? 0).
  - intros [= <- _]. constructor; [exact H0|constructor].
  - match goal with
    | |- context [poissonLoop S random P fuel w h ?r ?c ?cols ?rows ?g ?a ?s] =>
        destruct (poissonLoop S random P fuel w h r c cols rows g a s)
          as [[g' s3]| |] eqn:Hloop; cbn [bind fst snd]; try discriminate;
        pose proof (poissonLoop_inDomain w h r c cols rows fuel g a s g' s3)
          as Hinv
    end.
    intros [= <- _]. apply Forall_forall. intros p Hp.
    apply gridPoints_In in Hp. revert p Hp. apply Hinv; [| |exact Hloop].
    + intros p Hp. apply grid_set_In in Hp as [->|[]]. exact H0.
    + intros p [<-|[]]. exact H0.
Qed.

End PoissonFacts.

(** The first point of the grid sampler on a 4 x 4 canvas (4 points,
    seed 1, reference platform) has a coordinate that is not an integer. *)
Lemma grid_point_fractional :
  ~ pixelPoint 4 4
      (nth 0 (fst (sampleGrid Q (createPRNG Ref.platform) 4 4 4 1%Q)) (0, 0)%Q).
Proof.
  intros (x & y & Heq & _).
  assert (Hx : Qnum (fst (nth 0 (fst (sampleGrid Q (createPRNG Ref.platform)
                                       4 4 4 1%Q)) (0, 0)%Q))
               = x * 1
               /\ Qden (fst (nth 0 (fst (sampleGrid Q (createPRNG Ref.platform)
                                          4 4 4 1%Q)) (0, 0)%Q)) = 1%positive).
  { rewrite Heq. simpl. split; [lia | reflexivity]. }
  destruct Hx as [_ Hd]. vm_compute in Hd. discriminate.
Qed.

(** C10.  With a seeded generator, on a canvas of positive width and
    height, every point of the edge-aware sampler has integer coordinates
    with [0 <= x <= width - 1] and [0 <= y <= height - 1]; the points of
    the grid and of the Poisson-disc sampler lie in the closed rectangle
    [[0, width] x [0, height]], and a grid point need not have integer
    coordinates. *)
Theorem sampler_point_ranges (P : Platform) (w h n : Z) (seed0 : Q) :
  0 < w -> 0 < h ->
  (forall edgeMap ew,
      Forall (pixelPoint w h)
        (fst (sampleEdgeAware Q (createPRNG P) w h n edgeMap ew seed0)))
  /\ Forall (withinCanvas w h) (fst (sampleGrid Q (createPRNG P) w h n seed0))
  /\ (forall fuel pts s',
        samplePoisson Q (createPRNG P) P fuel w h n seed0 = Ok (pts, s') ->
        Forall (withinCanvas w h) pts)
  /\ ~ pixelPoint 4 4
         (nth 0 (fst (sampleGrid Q (createPRNG Ref.platform) 4 4 4 1%Q))
            (0, 0)%Q).
Proof.
  intros Hw Hh. split; [|split; [|split]].
  - intros edgeMap ew. unfold sampleEdgeAware.
    apply edgeAwareLoop_pixels; auto using createPRNG_unit.
  - apply sampleGrid_within; lia.
  - intros fuel pts s' Hrun.
    apply (samplePoisson_inDomain Q (createPRNG P) P (createPRNG_unit P))
      in Hrun; try assumption.
    eapply Forall_impl; [|exact Hrun].
    intros p. apply inDomain_withinCanvas.
  - exact grid_point_fractional.
Qed.

Lemma sampler_point_ranges_witness :
  Forall (pixelPoint 4 4)
    (fst (sampleEdgeAware Q (createPRNG Ref.platform) 4 4 3
            (createEdgeMap Demo.red4Data) (8 # 10)%Q 42%Q)).
Proof.
  apply (proj1 (sampler_point_ranges Ref.platform 4 4 3 42%Q
                  ltac:(lia) ltac:(lia))).
Defined.

(** ** The average colour *)

(** [Math.round(q)] is a byte exactly when [-1/2 <= q < 255 + 1/2]. *)
Lemma round_byte_iff (q : Q) :
  byte (JsMath.round q) <-> (- (1 # 2) <= q)%Q /\ (q < 511 # 2)%Q.
Proof.
  unfold byte, JsMath.round.
  set (x := (q + (1 # 2))%Q).
  pose proof (Qfloor_le x) as Hlo. pose proof (Qlt_floor x) as Hhi.
  rewrite inject_Z_plus in Hhi. change (inject_Z 1) with 1%Q in Hhi.
  split.
  - intros [H0 H255].
    rewrite Zle_Qle in H0, H255.
    change (inject_Z 0) with 0%Q in H0.
    change (inject_Z 255) with 255%Q in H255.
    subst x. set (f := inject_Z (Qfloor (q + (1 # 2)))) in *.
    split; lra.
  - intros [H0 H255]. split.
    + change 0 with (Qfloor 0). apply Qfloor_resp_le. subst x. lra.
    + enough (Qfloor x < 256) by lia.
      rewrite Zlt_Qlt. change (inject_Z 256) with 256%Q.
      subst x. set (f := inject_Z (Qfloor (q + (1 # 2)))) in *. lra.
Qed.

Lemma round_mean_byte (c : Q) (n : Z) :
  0 < n -> (0 <= c)%Q -> (c <= 255 * inject_Z n)%Q ->
  byte (JsMath.round (c / inject_Z n)).
Proof.
  intros Hn H0 H255. apply round_byte_iff.
  assert (Hq : (0 < inject_Z n)%Q) by (unfold Qlt; simpl; lia).
  assert (Hlo : (0 <= c / inject_Z n)%Q).
  { apply Qle_shift_div_l; [exact Hq|]. lra. }
  assert (Hhi : (c / inject_Z n <= 255)%Q).
  { apply Qle_shift_div_r; [exact Hq|]. lra. }
  split; lra.
Qed.

Lemma pixelAt_bytes (d : list Z) (i r g b : Z) :
  Forall byte d -> pixelAt d i = Some (r, g, b) -> byteTriple (r, g, b).
Proof.
  intros Hd. unfold pixelAt.
  destruct (aget d i) as [r'|] eqn:Hr; [|discriminate].
  destruct (aget d (i + 1)) as [g'|] eqn:Hg; [|discriminate].
  destruct (aget d (i + 2)) as [b'|] eqn:Hb; [|discriminate].
  intros [= <- <- <-]. rewrite Forall_forall in Hd.
  repeat split; apply Hd; eapply aget_In; eassumption.
Qed.

Section ColourFacts.

Variable P : Platform.
Variable v : Vertices.
Variable img : ImageData.
Hypothesis data_bytes : Forall byte (data img).

Lemma colourStep_bounded (y : Z) (acc : Acc) (x : Z) :
  sumsBounded acc -> sumsBounded (colourStep P v img RGB y acc x).
Proof.
  intros [Hn Hs]. unfold colourStep.
  destruct (insideTriangle v x y); [|now split].
  split; [simpl; lia|]. cbn [fst snd].
  destruct (fst acc) as [[[c1 c2] c3]|]; [|exact I].
  destruct (pixelAt (data img) ((y * width img + x) * 4))
    as [[[r g] b]|] eqn:Hpx; [|exact I].
  apply (pixelAt_bytes _ _ _ _ _ data_bytes) in Hpx.
  destruct Hpx as (Hr & Hg & Hb). unfold byte in Hr, Hg, Hb.
  cbn [fst snd] in Hr, Hg, Hb.
  rewrite inject_Z_plus. change (inject_Z 1) with 1%Q.
  destruct Hr as [Hr0 Hr1], Hg as [Hg0 Hg1], Hb as [Hb0 Hb1].
  rewrite Zle_Qle in Hr0, Hr1, Hg0, Hg1, Hb0, Hb1.
  change (inject_Z 0) with 0%Q in *.
  change (inject_Z 255) with 255%Q in *.
  destruct Hs as ((? & ?) & (? & ?) & (? & ?)).
  repeat split; lra.
Qed.

Lemma colourSums_bounded : sumsBounded (colourSums P v img RGB).
Proof.
  unfold colourSums. destruct (boundingBox v img) as [[[minX maxX] minY] maxY].
  apply (fold_left_invariant sumsBounded).
  - intros acc y Hacc. apply (fold_left_invariant sumsBounded); [|exact Hacc].
    intros acc' x. apply colourStep_bounded.
  - split; [simpl; lia|]. cbn [fst snd].
    repeat split; unfold Qle; simpl; lia.
Qed.

Lemma getAverageColor_RGB_bytes (c : Z * Z * Z) :
  getAverageColor P v img RGB = Some c -> byteTriple c.
Proof.
  unfold getAverageColor.
  destruct (boundingBox v img) as [[[minX maxX] minY] maxY].
  pose proof colourSums_bounded as [Hn Hs].
  destruct (colourSums P v img RGB) as [sums count]. cbn [fst snd] in Hn, Hs.
  destruct (Z.eqb_spec count 0) as [->|Hne].
  - destruct c as [[r g] b]. now apply pixelAt_bytes.
  - destruct sums as [[[c1 c2] c3]|]; [|discriminate].
    intros [= <-]. destruct Hs as ((? & ?) & (? & ?) & (? & ?)).
    repeat split; cbn [fst snd]; apply round_mean_byte; auto; lia.
Qed.

End ColourFacts.

(** *** Every read of the averaging loop falls inside the buffer *)

Lemma fold_left_invariant_In {A B : Type} (Inv : A -> Prop) (f : A -> B -> A)
  (l : list B) :
  (forall acc x, In x l -> Inv acc -> Inv (f acc x)) ->
  forall init, Inv init -> Inv (fold_left f l init).
Proof.
  induction l as [|x rest IH]; intros Hstep init Hinit; simpl.
  - exact Hinit.
  - apply IH.
    + intros acc y Hy. apply Hstep. now right.
    + apply Hstep; [now left | exact Hinit].
Qed.

Lemma aget_defined {A : Type} (l : list A) (i : Z) :
  0 <= i < Z.of_nat (List.length l) -> exists x, aget l i = Some x.
Proof.
  intros [H0 H1]. unfold aget. destruct (Z.ltb_spec i 0); [lia|].
  destruct (nth_error l (Z.to_nat i)) as [x|] eqn:Hx; [now exists x|].
  apply nth_error_None in Hx. lia.
Qed.

Lemma pixelAt_defined (d : list Z) (i : Z) :
  0 <= i -> i + 2 < Z.of_nat (List.length d) ->
  exists c, pixelAt d i = Some c.
Proof.
  intros H0 H1. unfold pixelAt.
  destruct (aget_defined d i) as [r ->]; [lia|].
  destruct (aget_defined d (i + 1)) as [g ->]; [lia|].
  destruct (aget_defined d (i + 2)) as [b ->]; [lia|].
  now exists (r, g, b).
Qed.

Lemma pixel_index_inside (img : ImageData) (x y : Z) :
  wellFormed img -> 0 <= x < width img -> 0 <= y < height img ->
  exists c, pixelAt (data img) ((y * width img + x) * 4) = Some c.
Proof.
  intros (Hw & Hh & Hlen & _) Hx Hy. apply pixelAt_defined; [nia|].
  rewrite Hlen. nia.
Qed.

Lemma boundingBox_inside (v : Vertices) (img : ImageData) :
  0 <= fst (fst (fst (boundingBox v img)))
  /\ snd (fst (fst (boundingBox v img))) <= width img
  /\ 0 <= snd (fst (boundingBox v img))
  /\ snd (boundingBox v img) <= height img.
Proof.
  destruct v as [[a b] c]. unfold boundingBox. cbn [fst snd]. lia.
Qed.

Section Definedness.

Variable P : Platform.
Variable v : Vertices.
Variable img : ImageData.
Hypothesis img_ok : wellFormed img.

Lemma colourStep_defined (cs : ColorSpace) (y : Z) (acc : Acc) (x : Z) :
  0 <= x < width img -> 0 <= y < height img ->
  fst acc <> None -> fst (colourStep P v img cs y acc x) <> None.
Proof.
  intros Hx Hy Hacc. unfold colourStep.
  destruct (insideTriangle v x y); [|exact Hacc]. cbn [fst].
  destruct (fst acc) as [[[c1 c2] c3]|]; [|congruence].
  destruct (pixel_index_inside img x y img_ok Hx Hy) as [[[r g] b] ->].
  destruct cs; [discriminate|].
  destruct (d3_lab P r g b) as [[l a] b']. discriminate.
Qed.

Lemma colourSums_defined (cs : ColorSpace) :
  fst (colourSums P v img cs) <> None.
Proof.
  unfold colourSums.
  pose proof (boundingBox_inside v img) as (H1 & H2 & H3 & H4).
  destruct (boundingBox v img) as [[[minX maxX] minY] maxY].
  cbn [fst snd] in H1, H2, H3, H4.
  apply (fold_left_invariant_In (fun acc : Acc => fst acc <> None));
    [|discriminate].
  intros acc y Hy Hacc. apply range_In in Hy.
  apply (fold_left_invariant_In (fun acc : Acc => fst acc <> None));
    [|exact Hacc].
  intros acc' x Hx. apply range_In in Hx.
  apply colourStep_defined; lia.
Qed.

End Definedness.

(** *** A kept triangle has a bounding box with pixels in it *)

Lemma min3_le (a b c : Q) :
  (JsMath.min3 a b c <= a)%Q /\ (JsMath.min3 a b c <= b)%Q
  /\ (JsMath.min3 a b c <= c)%Q.
Proof.
  unfold JsMath.min3.
  pose proof (Q.le_min_l (Qmin a b) c). pose proof (Q.le_min_r (Qmin a b) c).
  pose proof (Q.le_min_l a b). pose proof (Q.le_min_r a b).
  repeat split; eauto using Qle_trans.
Qed.

Lemma max3_ge (a b c : Q) :
  (a <= JsMath.max3 a b c)%Q /\ (b <= JsMath.max3 a b c)%Q
  /\ (c <= JsMath.max3 a b c)%Q.
Proof.
  unfold JsMath.max3.
  pose proof (Q.le_max_l (Qmax a b) c). pose proof (Q.le_max_r (Qmax a b) c).
  pose proof (Q.le_max_l a b). pose proof (Q.le_max_r a b).
  repeat split; eauto using Qle_trans.
Qed.

Lemma min3_glb (a b c x : Q) :
  (x <= a)%Q -> (x <= b)%Q -> (x <= c)%Q -> (x <= JsMath.min3 a b c)%Q.
Proof. intros. unfold JsMath.min3. now repeat apply Q.min_glb. Qed.

Lemma max3_lub (a b c x : Q) :
  (a <= x)%Q -> (b <= x)%Q -> (c <= x)%Q -> (JsMath.max3 a b c <= x)%Q.
Proof. intros. unfold JsMath.max3. now repeat apply Q.max_lub. Qed.

(** Three numbers whose least is not below their greatest are equal. *)
Lemma no_spread (a b c : Q) :
  ~ (JsMath.min3 a b c < JsMath.max3 a b c)%Q -> (a == b)%Q /\ (b == c)%Q.
Proof.
  intro H. apply Qnot_lt_le in H.
  destruct (min3_le a b c) as (? & ? & ?).
  destruct (max3_ge a b c) as (? & ? & ?).
  generalize dependent (JsMath.min3 a b c).
  generalize dependent (JsMath.max3 a b c).
  intros. split; lra.
Qed.

Lemma getArea_flat_x (a b c : Point) :
  (fst a == fst b)%Q -> (fst b == fst c)%Q -> (getArea (a, b, c) == 0)%Q.
Proof.
  intros Hab Hbc. unfold getArea, JsMath.abs.
  assert (E : ((fst a * (snd b - snd c) + fst b * (snd c - snd a)
                + fst c * (snd a - snd b)) / 2 == 0)%Q).
  { rewrite Hab, Hbc. field. }
  rewrite E. reflexivity.
Qed.

Lemma getArea_flat_y (a b c : Point) :
  (snd a == snd b)%Q -> (snd b == snd c)%Q -> (getArea (a, b, c) == 0)%Q.
Proof.
  intros Hab Hbc. unfold getArea, JsMath.abs.
  assert (E : ((fst a * (snd b - snd c) + fst b * (snd c - snd a)
                + fst c * (snd a - snd b)) / 2 == 0)%Q).
  { rewrite Hab, Hbc. field. }
  rewrite E. reflexivity.
Qed.

(** For numbers [0 <= m < M <= w]: [floor m < ceil M], both within
    [[0, w]]. *)
Lemma floor_lt_ceil (m M : Q) (w : Z) :
  (0 <= m)%Q -> (m < M)%Q -> (M <= inject_Z w)%Q ->
  Z.max 0 (JsMath.floor m) = JsMath.floor m
  /\ Z.min w (JsMath.ceil M) = JsMath.ceil M
  /\ 0 <= JsMath.floor m < JsMath.ceil M.
Proof.
  intros H0 Hlt Hw. unfold JsMath.floor, JsMath.ceil.
  assert (Hf : 0 <= Qfloor m).
  { change 0 with (Qfloor 0). now apply Qfloor_resp_le. }
  assert (Hc : Qceiling M <= w).
  { rewrite <- (Qceiling_Z w). now apply Qceiling_resp_le. }
  assert (Hfc : Qfloor m < Qceiling M).
  { rewrite Zlt_Qlt.
    apply Qle_lt_trans with m; [apply Qfloor_le|].
    apply Qlt_le_trans with M; [exact Hlt | apply Qle_ceiling]. }
  lia.
Qed.

Lemma kept_box (img : ImageData) (v : Vertices) :
  kept (width img) (height img) v = true ->
  0 <= fst (fst (fst (boundingBox v img)))
       < snd (fst (fst (boundingBox v img)))
  /\ snd (fst (fst (boundingBox v img))) <= width img
  /\ 0 <= snd (fst (boundingBox v img)) < snd (boundingBox v img)
  /\ snd (boundingBox v img) <= height img.
Proof.
  intro Hk. destruct v as [[a b] c].
  assert (Ha : withinCanvas (width img) (height img) a)
    by (apply (kept_withinCanvas _ _ _ _ Hk); simpl; auto).
  assert (Hb : withinCanvas (width img) (height img) b)
    by (apply (kept_withinCanvas _ _ _ _ Hk); simpl; auto).
  assert (Hc : withinCanvas (width img) (height img) c)
    by (apply (kept_withinCanvas _ _ _ _ Hk); simpl; auto).
  destruct Ha as (Ha1 & Ha2 & Ha3 & Ha4), Hb as (Hb1 & Hb2 & Hb3 & Hb4),
           Hc as (Hc1 & Hc2 & Hc3 & Hc4).
  unfold kept in Hk. apply andb_true_iff in Hk as [_ Harea].
  apply negb_true_iff, ltb_false in Harea.
  assert (Hx : (JsMath.min3 (fst a) (fst b) (fst c)
                < JsMath.max3 (fst a) (fst b) (fst c))%Q).
  { destruct (Qlt_le_dec (JsMath.min3 (fst a) (fst b) (fst c))
                (JsMath.max3 (fst a) (fst b) (fst c))) as [H|H]; [exact H|].
    apply Qle_not_lt in H. apply no_spread in H as [H1 H2].
    rewrite (getArea_flat_x a b c H1 H2) in Harea.
    exfalso. apply Harea. reflexivity. }
  assert (Hy : (JsMath.min3 (snd a) (snd b) (snd c)
                < JsMath.max3 (snd a) (snd b) (snd c))%Q).
  { destruct (Qlt_le_dec (JsMath.min3 (snd a) (snd b) (snd c))
                (JsMath.max3 (snd a) (snd b) (snd c))) as [H|H]; [exact H|].
    apply Qle_not_lt in H. apply no_spread in H as [H1 H2].
    rewrite (getArea_flat_y a b c H1 H2) in Harea.
    exfalso. apply Harea. reflexivity. }
  unfold boundingBox. cbn [fst snd].
  destruct (floor_lt_ceil _ _ (width img)
              (min3_glb _ _ _ 0%Q Ha1 Hb1 Hc1) Hx
              (max3_lub _ _ _ _ Ha2 Hb2 Hc2)) as (-> & -> & ?).
  destruct (floor_lt_ceil _ _ (height img)
              (min3_glb _ _ _ 0%Q Ha3 Hb3 Hc3) Hy
              (max3_lub _ _ _ _ Ha4 Hb4 Hc4)) as (-> & -> & ?).
  pose proof (Qceiling_resp_le _ _ (max3_lub _ _ _ _ Ha2 Hb2 Hc2)) as Hcw.
  pose proof (Qceiling_resp_le _ _ (max3_lub _ _ _ _ Ha4 Hb4 Hc4)) as Hch.
  rewrite Qceiling_Z in Hcw, Hch. unfold JsMath.ceil, JsMath.floor in *. lia.
Qed.

(** *** The colours of a result *)

(** Every triangle of a result is a kept polygon coloured by
    [getAverageColor] over the scaled image. *)
Lemma generate_colours (P : Platform) (fuel : nat)
  (element : HTMLImageElement) (name : string) (settings : Settings)
  (out : LowPolyOutput) (img : ImageData) :
  generateLowPolyData P fuel element name settings = Ok out ->
  getScaledImageData P element (maxSize settings) = Ok img ->
  forall t, In t (triangles out) ->
    kept (width img) (height img) (vertices t) = true
    /\ avg_color t = getAverageColor P (vertices t) img (colorSpace settings).
Proof.
  intros H Himg t Ht.
  apply generate_Ok in H as (img' & sampled & Himg' & _ & _ & _ & Htri).
  rewrite Himg in Himg'. injection Himg' as <-.
  cbv zeta in Htri. unfold filtered in Htri.
  set (pts := addBorderPoints sampled (width img) (height img)) in *.
  destruct (filterLoop_triangles P img (colorSpace settings)
              (trianglePolygons (d3_Delaunay_from P pts)) 0 initialState)
    as (fresh & Hf & _ & Hv & _ & Hn).
  cbv zeta in Hf. simpl app in Hf. rewrite Hf in Htri.
  assert (Hfresh : forall t0, In t0 fresh ->
            kept (width img) (height img) (vertices t0) = true
            /\ avg_color t0
               = getAverageColor P (vertices t0) img (colorSpace settings)).
  { intros t0 Ht0. split; [|now apply Hn].
    assert (Hin : In (vertices t0) (map vertices fresh)) by now apply in_map.
    rewrite Hv in Hin. now apply filter_In in Hin. }
  rewrite Htri in Ht. destruct (withNeighbors settings).
  - apply in_map_iff in Ht as (t0 & <- & Ht0).
    rewrite resolveNeighbors_vertices, resolveNeighbors_avg_color.
    now apply Hfresh.
  - now apply Hfresh.
Qed.

(** The pixel read when no pixel of the box passes the test. *)
Lemma fallback_defined (img : ImageData) (v : Vertices) :
  wellFormed img ->
  kept (width img) (height img) v = true ->
  exists c,
    pixelAt (data img)
      (((snd (fst (boundingBox v img)) + snd (boundingBox v img)) / 2
        * width img
        + (fst (fst (fst (boundingBox v img)))
           + snd (fst (fst (boundingBox v img)))) / 2) * 4) = Some c
    /\ byteTriple c.
Proof.
  intros Hok Hk. pose proof (kept_box img v Hk) as (Hx & Hxw & Hy & Hyh).
  destruct (boundingBox v img) as [[[minX maxX] minY] maxY].
  cbn [fst snd] in *.
  destruct (pixel_index_inside img ((minX + maxX) / 2) ((minY + maxY) / 2) Hok)
    as [[[r g] b] Hpx].
  - pose proof (Z.div_mod (minX + maxX) 2 ltac:(lia)).
    pose proof (Z.mod_pos_bound (minX + maxX) 2 ltac:(lia)). lia.
  - pose proof (Z.div_mod (minY + maxY) 2 ltac:(lia)).
    pose proof (Z.mod_pos_bound (minY + maxY) 2 ltac:(lia)). lia.
  - exists (r, g, b). split; [exact Hpx|].
    destruct Hok as (_ & _ & _ & Hb). eapply pixelAt_bytes; eassumption.
Qed.

(** The colour of a kept triangle over a well-formed image. *)
Lemma getAverageColor_kept (P : Platform) (img : ImageData) (v : Vertices)
  (cs : ColorSpace) :
  wellFormed img ->
  kept (width img) (height img) v = true ->
  exists c1 c2 c3 n,
    colourSums P v img cs = (Some (c1, c2, c3), n)
    /\ (n = 0 ->
        exists c, getAverageColor P v img cs = Some c /\ byteTriple c)
    /\ (n <> 0 ->
        getAverageColor P v img cs
        = match cs with
          | RGB =>
              Some (JsMath.round (c1 / inject_Z n),
                    JsMath.round (c2 / inject_Z n),
                    JsMath.round (c3 / inject_Z n))
          | LAB =>
              Some (JsMath.round
                      (fst (fst (d3_lab_rgb P (c1 / inject_Z n)
                                   (c2 / inject_Z n) (c3 / inject_Z n)))),
                    JsMath.round
                      (snd (fst (d3_lab_rgb P (c1 / inject_Z n)
                                   (c2 / inject_Z n) (c3 / inject_Z n)))),
                    JsMath.round
                      (snd (d3_lab_rgb P (c1 / inject_Z n)
                              (c2 / inject_Z n) (c3 / inject_Z n))))
          end).
Proof.
  intros Hok Hk.
  pose proof (colourSums_defined P v img Hok cs) as Hdef.
  pose proof (fallback_defined img v Hok Hk) as Hfb.
  unfold getAverageColor.
  destruct (boundingBox v img) as [[[minX maxX] minY] maxY].
  cbn [fst snd] in Hfb.
  destruct (colourSums P v img cs) as [[[[c1 c2] c3]|] n]; cbn [fst] in Hdef;
    [|congruence].
  exists c1, c2, c3, n. split; [reflexivity|]. split.
  - intros ->. exact Hfb.
  - intro Hn. destruct (Z.eqb_spec n 0); [contradiction|].
    destruct cs; [reflexivity|].
    destruct (d3_lab_rgb P _ _ _) as [[r g] b]. reflexivity.
Qed.

(** On the 2 x 2 picture [Demo.blueRed] with the Lab colour space, the
    first triangle of the result covers two blue and two red pixels and
    its green channel is -42. *)
Lemma lab_average_out_of_range :
  generateLowPolyData Ref.platform 0 Demo.blueRed "input.png" Demo.noPoints
  = Ok Demo.blueRedOutput
  /\ colorSpace Demo.noPoints = LAB
  /\ map avg_color (triangles Demo.blueRedOutput)
     = [Some (193, -42, 136); Some (0, 0, 255)].
Proof. vm_compute. repeat split; reflexivity. Qed.

(** C2 (amended).  Over a well-formed image, every triangle of a result
    has a colour of three integers.  With the RGB colour space each
    channel lies in [0, 255].  With the Lab colour space a triangle with
    no pixel inside takes the bytes of one pixel; otherwise each channel is
    [Math.round] of the channel d3 converts the mean Lab triple to, with
    no clamping: it lies in [0, 255] exactly when that channel lies in
    [-1/2, 255 + 1/2). *)
Theorem avg_color_channels (P : Platform) (fuel : nat)
  (element : HTMLImageElement) (name : string) (settings : Settings)
  (out : LowPolyOutput) (img : ImageData) :
  generateLowPolyData P fuel element name settings = Ok out ->
  getScaledImageData P element (maxSize settings) = Ok img ->
  wellFormed img ->
  Forall (colouredAsCoded P settings img) (triangles out)
  /\ (forall q, byte (JsMath.round q)
                <-> (- (1 # 2) <= q)%Q /\ (q < 511 # 2)%Q).
Proof.
  intros Hrun Himg Hok. split; [|exact round_byte_iff].
  apply Forall_forall. intros t Ht.
  destruct (generate_colours P fuel element name settings out img Hrun Himg
              t Ht) as [Hk Hc].
  split; intro Hcs; rewrite Hcs in Hc; rewrite Hc.
  - destruct (getAverageColor_kept P img (vertices t) RGB Hok Hk)
      as (c1 & c2 & c3 & n & _ & H0 & Hn).
    destruct (getAverageColor P (vertices t) img RGB) as [c|] eqn:Hg.
    + exists c. split; [reflexivity|].
      destruct Hok as (_ & _ & _ & Hb).
      eapply getAverageColor_RGB_bytes; eassumption.
    + destruct (Z.eq_dec n 0) as [Hz|Hz].
      * destruct (H0 Hz) as (c & Hc' & _). discriminate.
      * specialize (Hn Hz). discriminate.
  - exact (getAverageColor_kept P img (vertices t) LAB Hok Hk).
Qed.

Lemma red4Data_wellFormed : wellFormed Demo.red4Data.
Proof.
  unfold wellFormed. repeat split; try (vm_compute; congruence).
  apply Forall_forall. intros z Hz. vm_compute in Hz. unfold byte.
  repeat (destruct Hz as [<-|Hz]; [lia|]). destruct Hz.
Qed.

Lemma avg_color_channels_witness :
  Forall (colouredAsCoded Ref.platform Demo.gridSettings Demo.red4Data)
    (triangles Demo.gridOutput).
Proof.
  assert (E : generateLowPolyData Ref.platform 0 Demo.red4 "input.png"
                Demo.gridSettings = Ok Demo.gridOutput)
    by (vm_compute; reflexivity).
  assert (E' : getScaledImageData Ref.platform Demo.red4
                 (maxSize Demo.gridSettings) = Ok Demo.red4Data)
    by (vm_compute; reflexivity).
  exact (proj1 (avg_color_channels Ref.platform 0 Demo.red4 "input.png"
                  Demo.gridSettings Demo.gridOutput Demo.red4Data E E'
                  red4Data_wellFormed)).
Defined.

(** ** The edge map *)

(** C3.  On the 3 x 3 picture [Demo.stepEdge] the gradient at the centre is
    [gx = 1020], [gy = 0]: the magnitude 1020 is stored as the byte 255,
    [maxGradient] is 1020, and the normalisation turns the byte into
    [255 / 1020 * 255 = 63.75], stored as 64.  The greatest value of the
    returned map is 64, not 255. *)
Theorem edge_map_peak_below_255 :
  grayscaleOf Demo.stepEdge = [0; 0; 255; 0; 0; 255; 0; 0; 255]
  /\ sobelAt 3 (grayscaleOf Demo.stepEdge) 1 1 = (1020, 0)
  /\ maxGradientSq Demo.stepEdge = 1020 * 1020
  /\ createEdgeMap Demo.stepEdge = [0; 0; 0; 0; 64; 0; 0; 0; 0]
  /\ maximum (createEdgeMap Demo.stepEdge) = 64.
Proof. vm_compute. repeat split; reflexivity. Qed.

Lemma replace_nth_repeat {A : Type} (x : A) (n k : nat) :
  replace_nth k x (repeat x n) = repeat x n.
Proof.
  revert k. induction n as [|n IH]; intros [|k]; simpl; try reflexivity.
  now rewrite IH.
Qed.

Lemma ta_set_zero (n : nat) (i : Z) : ta_set (repeat 0 n) i 0 = repeat 0 n.
Proof.
  unfold ta_set. destruct (i <? 0); [reflexivity|]. apply replace_nth_repeat.
Qed.

(** While [maxGradient] is 0 the loops have stored zeros only. *)
Lemma edgeRows_flat (w h : Z) (gray : list Z) :
  0 <= snd (edgeRows w h gray)
  /\ (snd (edgeRows w h gray) = 0 ->
      fst (edgeRows w h gray) = repeat 0 (Z.to_nat (w * h))).
Proof.
  unfold edgeRows.
  set (Inv := fun st : list Z * Z =>
                0 <= snd st
                /\ (snd st = 0 -> fst st = repeat 0 (Z.to_nat (w * h)))).
  apply (fold_left_invariant Inv); [|split; [simpl; lia | reflexivity]].
  intros st y Hst. apply (fold_left_invariant Inv); [|exact Hst].
  clear st Hst. intros [edgeMap maxSq] x [Hpos Hzero]. unfold edgeStep.
  destruct (sobelAt w gray x y) as [gx gy]. cbn [fst snd] in *.
  destruct (Z.gtb_spec (gx * gx + gy * gy) maxSq) as [Hgt|Hle];
    subst Inv; cbn [fst snd].
  - split; [lia|]. intro H0. nia.
  - split; [exact Hpos|]. intro H0. rewrite (Hzero H0).
    assert (Hn : gx * gx + gy * gy = 0) by nia.
    rewrite Hn. apply ta_set_zero.
Qed.

(** The second half of C3: when no gradient is positive the map is
    returned all zero, and nothing is divided. *)
Lemma createEdgeMap_flat (img : ImageData) :
  maxGradientSq img = 0 ->
  createEdgeMap img = repeat 0 (Z.to_nat (width img * height img)).
Proof.
  unfold maxGradientSq, createEdgeMap. intro H0.
  destruct (edgeRows_flat (width img) (height img) (grayscaleOf img))
    as [_ Hflat].
  specialize (Hflat H0).
  destruct (edgeRows (width img) (height img) (grayscaleOf img))
    as [edgeMap maxSq].
  simpl in H0, Hflat. subst. reflexivity.
Qed.

(** ** The separation of the Poisson-disc points *)

Lemma forallb_same {A : Type} (f g : A -> bool) (l : list A) :
  (forall x, f x = g x) -> forallb f l = forallb g l.
Proof.
  intro H. induction l as [|x rest IH]; simpl; [reflexivity|].
  now rewrite H, IH.
Qed.

(** The scan of a candidate reads the grid at indices below
    [rows * cols] only: a point stored in a cell of row [rows] or beyond
    is never compared with a candidate. *)
Lemma candidateOk_blind (P : Platform) (r : Q) (cols rows : Z)
  (g g' : list (option Point)) (row col : Z) (px py : Q) :
  (forall i, 0 <= i < rows * cols -> grid_get g i = grid_get g' i) ->
  candidateOk P r cols rows g row col px py
  = candidateOk P r cols rows g' row col px py.
Proof.
  intro Hagree. unfold candidateOk.
  apply forallb_same. intro dy. apply forallb_same. intro dx.
  destruct ((0 <=? row + dy) && (row + dy <? rows) && (0 <=? col + dx)
            && (col + dx <? cols)) eqn:Hin; [|reflexivity].
  repeat (apply andb_true_iff in Hin; destruct Hin as [Hin ?]).
  rewrite Hagree; [reflexivity|]. nia.
Qed.

(** C4.  On a 100 x 100 canvas with 50 target points ([r] about 11.97,
    cells of side about 8.46, [rows = cols = 11]) and the random numbers
    [Demo.darts], the sampler returns the three points [(76.6, 95)],
    [(88.57, 95)] and [(99.34, 95)].  They lie in row 11, which the scan
    never reads; the last two are [0.9 r] apart, closer than [r]. *)
Theorem poisson_points_closer_than_r :
  samplePoisson (list Q) Demo.nextOf Ref.platform 10 100 100 50 Demo.darts
  = Ok (Demo.poissonPoints, [])
  /\ List.length Demo.poissonPoints = 3%nat
  /\ JsMath.floor (inject_Z 100
                   / (poissonRadius Ref.platform 100 100 50 / Ref.sqrt 2))
     = 11
  /\ JsMath.floor (snd (nth 1 Demo.poissonPoints (0, 0)%Q)
                   / (poissonRadius Ref.platform 100 100 50 / Ref.sqrt 2))
     = 11
  /\ (fst (nth 1 Demo.poissonPoints (0, 0)%Q)
      < fst (nth 2 Demo.poissonPoints (0, 0)%Q))%Q
  /\ (0 < poissonRadius Ref.platform 100 100 50)%Q
  /\ (sq (fst (nth 1 Demo.poissonPoints (0, 0)%Q)
          - fst (nth 2 Demo.poissonPoints (0, 0)%Q))
      + sq (snd (nth 1 Demo.poissonPoints (0, 0)%Q)
            - snd (nth 2 Demo.poissonPoints (0, 0)%Q))
      < sq (poissonRadius Ref.platform 100 100 50))%Q.
Proof. vm_compute. repeat split; reflexivity. Qed.

(** * Further properties of the service *)

(** ** What the filter records for a triangle *)

(** A property of every triangle the loop builds holds for every triangle
    of its final state. *)
Lemma filterLoop_Forall (P : Platform) (img : ImageData) (cs : ColorSpace)
  (Good : Triangle -> Prop) :
  (forall v n,
      kept (width img) (height img) v = true ->
      Good {| id := n; vertices := v; centroid := getCentroid v;
              area_px := getArea v;
              avg_color := getAverageColor P v img cs; neighbors := [] |}) ->
  forall polys i st,
    Forall Good (fs_triangles st) ->
    Forall Good (fs_triangles (filterLoop P img cs polys i st)).
Proof.
  intros Hbuild. induction polys as [|v rest IH]; intros i st Hst; simpl.
  - exact Hst.
  - pose proof (kept_unfold (width img) (height img) v) as Hk.
    destruct (someOutside (width img) (height img) v); [now apply IH|].
    destruct (JsMath.ltb (getArea v) 1); [now apply IH|].
    apply IH. simpl. apply Forall_app. split; [exact Hst|].
    constructor; [|constructor]. now apply Hbuild.
Qed.

Lemma resolveNeighbors_centroid (d : Delaunay) (m : IndexMap) (t : Triangle) :
  centroid (resolveNeighbors d m t) = centroid t.
Proof.
  unfold resolveNeighbors. destruct (find _ m) as [[k v]|]; reflexivity.
Qed.

Lemma resolveNeighbors_area (d : Delaunay) (m : IndexMap) (t : Triangle) :
  area_px (resolveNeighbors d m t) = area_px t.
Proof.
  unfold resolveNeighbors. destruct (find _ m) as [[k v]|]; reflexivity.
Qed.

Lemma kept_area (w h : Z) (v : Vertices) :
  kept w h v = true -> (1 <= getArea v)%Q.
Proof.
  unfold kept. intro H. apply andb_true_iff in H as [_ H].
  apply negb_true_iff in H. now apply ltb_false.
Qed.

Lemma centroid_withinCanvas (w h : Z) (v : Vertices) :
  kept w h v = true -> withinCanvas w h (getCentroid v).
Proof.
  intro Hk. destruct v as [[a b] c].
  assert (Ha : withinCanvas w h a)
    by (apply (kept_withinCanvas _ _ _ _ Hk); simpl; auto).
  assert (Hb : withinCanvas w h b)
    by (apply (kept_withinCanvas _ _ _ _ Hk); simpl; auto).
  assert (Hc : withinCanvas w h c)
    by (apply (kept_withinCanvas _ _ _ _ Hk); simpl; auto).
  destruct Ha as (Ha1 & Ha2 & Ha3 & Ha4), Hb as (Hb1 & Hb2 & Hb3 & Hb4),
           Hc as (Hc1 & Hc2 & Hc3 & Hc4).
  unfold withinCanvas, getCentroid. cbn [fst snd].
  generalize dependent (inject_Z w). generalize dependent (inject_Z h).
  intros qh ? ? ? qw ? ? ?.
  repeat split.
  - apply Qle_shift_div_l; [reflexivity|]. lra.
  - apply Qle_shift_div_r; [reflexivity|]. lra.
  - apply Qle_shift_div_l; [reflexivity|]. lra.
  - apply Qle_shift_div_r; [reflexivity|]. lra.
Qed.

(** The area floor: every triangle of a result records the centroid and
    the area of its own vertices, its area is at least 1 and its centroid
    lies on the canvas. *)
Theorem triangles_enriched (P : Platform) (fuel : nat)
  (element : HTMLImageElement) (name : string) (settings : Settings)
  (out : LowPolyOutput) :
  generateLowPolyData P fuel element name settings = Ok out ->
  Forall (enriched (out_width (image out)) (out_height (image out)))
    (triangles out).
Proof.
  intro H.
  apply generate_Ok in H as (img & sampled & _ & _ & -> & -> & Htri).
  cbv zeta in Htri. unfold filtered in Htri.
  set (pts := addBorderPoints sampled (width img) (height img)) in *.
  assert (Hst : Forall (enriched (width img) (height img))
                  (fs_triangles
                     (filterLoop P img (colorSpace settings)
                        (trianglePolygons (d3_Delaunay_from P pts)) 0
                        initialState))).
  { apply filterLoop_Forall; [|constructor].
    intros v n Hk. unfold enriched. cbn.
    split; [reflexivity|]. split; [reflexivity|].
    split; [now apply (kept_area (width img) (height img))|].
    now apply centroid_withinCanvas. }
  rewrite Htri. destruct (withNeighbors settings); [|exact Hst].
  apply Forall_map. eapply Forall_impl; [|exact Hst].
  intros t Ht. unfold enriched in *.
  now rewrite resolveNeighbors_centroid, resolveNeighbors_area,
    resolveNeighbors_vertices.
Qed.

Lemma triangles_enriched_witness :
  Forall (enriched (out_width (image Demo.gridOutput))
            (out_height (image Demo.gridOutput)))
    (triangles Demo.gridOutput).
Proof.
  assert (E : generateLowPolyData Ref.platform 0 Demo.red4 "input.png"
                Demo.gridSettings = Ok Demo.gridOutput)
    by (vm_compute; reflexivity).
  exact (triangles_enriched Ref.platform 0 Demo.red4 "input.png"
           Demo.gridSettings Demo.gridOutput E).
Defined.

(** ** The area of a triangle *)

(** [getArea] is never negative, it does not depend on the orientation
    (the first two vertices swapped), and it is 0 for a triangle with a
    repeated vertex, which the filter therefore drops. *)
Theorem getArea_orientation (a b c : Point) (w h : Z) :
  (0 <= getArea (a, b, c))%Q
  /\ (getArea (b, a, c) == getArea (a, b, c))%Q
  /\ ((getArea (a, a, c) == 0)%Q /\ kept w h (a, a, c) = false)
  /\ ((getArea (a, b, b) == 0)%Q /\ kept w h (a, b, b) = false)
  /\ ((getArea (a, b, a) == 0)%Q /\ kept w h (a, b, a) = false).
Proof.
  assert (Hdrop : forall v, (getArea v == 0)%Q -> kept w h v = false).
  { intros v Hv. unfold kept, JsMath.ltb.
    destruct (Qle_bool 1 (getArea v)) eqn:Hle.
    - apply Qle_bool_iff in Hle. rewrite Hv in Hle.
      exfalso. apply Hle. reflexivity.
    - now rewrite andb_false_r. }
  assert (Hzero : forall v,
            (match v with
             | (p, q, r) =>
                 (fst p * (snd q - snd r) + fst q * (snd r - snd p)
                  + fst r * (snd p - snd q)) / 2
             end == 0)%Q -> (getArea v == 0)%Q).
  { intros [[p q] r] E. unfold getArea, JsMath.abs. now rewrite E. }
  split; [apply Qabs_nonneg|]. split.
  - unfold getArea, JsMath.abs.
    rewrite <- (Qabs_opp ((fst a * (snd b - snd c) + fst b * (snd c - snd a)
                           + fst c * (snd a - snd b)) / 2)).
    apply Qabs_wd. field.
  - assert (E1 : (getArea (a, a, c) == 0)%Q) by (apply Hzero; field).
    assert (E2 : (getArea (a, b, b) == 0)%Q) by (apply Hzero; field).
    assert (E3 : (getArea (a, b, a) == 0)%Q) by (apply Hzero; field).
    auto.
Qed.

(** ** The size the normalizer computes *)

(** For a picture of positive size and a positive [maxSize], the size the
    normalizer computes exceeds neither [maxSize] nor the size of the
    picture (it never enlarges), and it keeps the aspect ratio up to the
    rounding of one dimension:
    [2 |width' * height - height' * width| <= max(width, height)]. *)
Theorem scaledSize_bounds (w h m : Z) :
  0 < w -> 0 < h -> 0 < m ->
  fst (scaledSize w h m) <= Z.min w m
  /\ snd (scaledSize w h m) <= Z.min h m
  /\ 2 * Z.abs (fst (scaledSize w h m) * h - snd (scaledSize w h m) * w)
     <= Z.max w h.
Proof.
  intros Hw Hh Hm.
  destruct (Z_le_gt_dec w m) as [Hwm|Hwm], (Z_le_gt_dec h m) as [Hhm|Hhm];
    [rewrite scaledSize_small by assumption; cbn [fst snd]; lia | | |];
    (destruct (Z_lt_le_dec h w) as [Hlt|Hle];
     [ rewrite scaledSize_wide by lia; cbn [fst snd];
       pose proof (rounded_ratio_bounds h w m ltac:(lia) ltac:(lia) ltac:(lia))
         as [Hb _];
       pose proof (rounded_ratio_error h w m Hw) as He
     | rewrite scaledSize_tall by lia; cbn [fst snd];
       pose proof (rounded_ratio_bounds w h m ltac:(lia) ltac:(lia) ltac:(lia))
         as [Hb _];
       pose proof (rounded_ratio_error w h m Hh) as He ]).
  all: set (q := (_ / _)) in *.
  all: repeat split; nia.
Qed.

Lemma scaledSize_bounds_witness :
  fst (scaledSize 1024 768 256) <= Z.min 1024 256
  /\ snd (scaledSize 1024 768 256) <= Z.min 768 256
  /\ 2 * Z.abs (fst (scaledSize 1024 768 256) * 768
                - snd (scaledSize 1024 768 256) * 1024)
     <= Z.max 1024 768.
Proof.
  apply (scaledSize_bounds 1024 768 256); lia.
Defined.

(** ** The points handed to the triangulator *)

Lemma pixelPoint_withinCanvas (w h : Z) (p : Point) :
  pixelPoint w h p -> withinCanvas w h p.
Proof.
  intros (x & y & -> & Hx & Hy). unfold withinCanvas. cbn [fst snd].
  repeat split; unfold Qle; simpl; lia.
Qed.

Lemma edgePoints_withinCanvas (k w h i : Z) :
  1 <= i < k -> 0 <= w -> 0 <= h ->
  Forall (withinCanvas w h) (edgePoints k (inject_Z w) (inject_Z h) i).
Proof.
  intros Hi Hw Hh.
  assert (Hkq : (0 < inject_Z k)%Q) by (unfold Qlt; simpl; lia).
  assert (Ht0 : (0 <= inject_Z i / inject_Z k)%Q).
  { apply Qle_shift_div_l; [exact Hkq|].
    rewrite Qmult_0_l. unfold Qle; simpl; lia. }
  assert (Ht1 : (inject_Z i / inject_Z k <= 1)%Q).
  { apply Qle_shift_div_r; [exact Hkq|].
    rewrite Qmult_1_l. unfold Qle; simpl; lia. }
  assert (Hwq : (0 <= inject_Z w)%Q) by (unfold Qle; simpl; lia).
  assert (Hhq : (0 <= inject_Z h)%Q) by (unfold Qle; simpl; lia).
  unfold edgePoints, withinCanvas. cbn [fst snd].
  generalize dependent (inject_Z i / inject_Z k)%Q.
  generalize dependent (inject_Z w). generalize dependent (inject_Z h).
  intros qh Hhq qw Hwq t Ht0 Ht1.
  assert (Htw : (0 <= t * qw /\ t * qw <= qw)%Q) by (split; nra).
  assert (Hth : (0 <= t * qh /\ t * qh <= qh)%Q) by (split; nra).
  destruct Htw, Hth.
  repeat (apply Forall_cons; [cbn [fst snd]; repeat split; lra|]).
  apply Forall_nil.
Qed.

Lemma addBorderPoints_structure (pts : list Point) (w h : Z) :
  exists k,
    0 < k
    /\ addBorderPoints pts w h
       = pts ++ corners w h
             ++ flat_map (edgePoints k (inject_Z w) (inject_Z h)) (range 1 k).
Proof.
  exists (JsMath.ceil_half_sqrt (Z.of_nat (List.length pts) + 4)). split.
  - apply ceil_half_sqrt_spec. lia.
  - unfold addBorderPoints.
    replace (Z.of_nat (List.length (pts ++ _)))
      with (Z.of_nat (List.length pts) + 4)
      by (rewrite length_app; simpl; lia).
    rewrite fold_borderStep, <- app_assoc. reflexivity.
Qed.

(** Every point the triangulator is given lies on the canvas: the points
    of each of the three samplers, the corners and the points pushed on
    the edges. *)
Theorem triangulator_input_within (P : Platform) (fuel : nat)
  (img : ImageData) (settings : Settings) (sampled : list Point) :
  0 < width img -> 0 < height img ->
  samplePoints P fuel img settings = Ok sampled ->
  Forall (withinCanvas (width img) (height img))
    (addBorderPoints sampled (width img) (height img)).
Proof.
  intros Hw Hh Hs.
  assert (Hsampled : Forall (withinCanvas (width img) (height img)) sampled).
  { unfold samplePoints in Hs. destruct (sampler settings).
    - injection Hs as <-. apply sampleGrid_within; lia.
    - destruct (samplePoisson Q (createPRNG P) P fuel (width img) (height img)
                  (points settings) (seed settings)) as [[pts s']| |] eqn:Hp;
        cbn [bind fst] in Hs; try discriminate.
      injection Hs as <-.
      apply (samplePoisson_inDomain Q (createPRNG P) P (createPRNG_unit P))
        in Hp; try assumption.
      eapply Forall_impl; [|exact Hp]. intro p. apply inDomain_withinCanvas.
    - injection Hs as <-. unfold sampleEdgeAware.
      eapply Forall_impl;
        [|apply (edgeAwareLoop_pixels Q (createPRNG P) (createPRNG_unit P));
          auto].
      intro p. apply pixelPoint_withinCanvas. }
  destruct (addBorderPoints_structure sampled (width img) (height img))
    as [k [Hk ->]].
  apply Forall_app. split; [exact Hsampled|].
  apply Forall_app. split.
  - assert (Hwq : (0 <= inject_Z (width img))%Q) by (unfold Qle; simpl; lia).
    assert (Hhq : (0 <= inject_Z (height img))%Q) by (unfold Qle; simpl; lia).
    unfold corners, withinCanvas.
    repeat constructor; cbn [fst snd]; try apply Qle_refl; assumption.
  - apply Forall_forall. intros p Hp.
    apply in_flat_map in Hp as (i & Hi & Hp). apply range_In in Hi.
    pose proof (edgePoints_withinCanvas k (width img) (height img) i
                  ltac:(lia) ltac:(lia) ltac:(lia)) as Hall.
    rewrite Forall_forall in Hall. now apply Hall.
Qed.

Lemma triangulator_input_within_witness :
  Forall (withinCanvas (width Demo.red4Data) (height Demo.red4Data))
    (addBorderPoints
       (fst (sampleGrid Q (createPRNG Ref.platform) 4 4 4 1%Q))
       (width Demo.red4Data) (height Demo.red4Data)).
Proof.
  apply (triangulator_input_within Ref.platform 0 Demo.red4Data
           Demo.gridSettings
           (fst (sampleGrid Q (createPRNG Ref.platform) 4 4 4 1%Q))).
  - simpl. lia.
  - simpl. lia.
  - reflexivity.
Defined.

(** ** The grid sampler *)

Lemma fold_range_invariant {A : Type} (Inv : Z -> A -> Prop)
  (f : A -> Z -> A) (a : Z) :
  forall (len : nat) (init : A),
    Inv a init ->
    (forall i acc, a <= i < a + Z.of_nat len -> Inv i acc ->
                   Inv (i + 1) (f acc i)) ->
    Inv (a + Z.of_nat len)
      (fold_left f (map (fun k => a + Z.of_nat k) (seq 0 len)) init).
Proof.
  induction len as [|len IH]; intros init Hinit Hstep.
  - simpl. now rewrite Z.add_0_r.
  - rewrite seq_S, map_app, fold_left_app.
    replace (a + Z.of_nat (Datatypes.S len)) with (a + Z.of_nat len + 1) by lia.
    cbn [map fold_left Nat.add].
    apply Hstep; [lia|]. apply IH; [exact Hinit|].
    intros i acc Hi. apply Hstep. lia.
Qed.

Lemma fold_range (A : Type) (Inv : Z -> A -> Prop) (f : A -> Z -> A)
  (a b : Z) (init : A) :
  a <= b ->
  Inv a init ->
  (forall i acc, a <= i < b -> Inv i acc -> Inv (i + 1) (f acc i)) ->
  Inv b (fold_left f (range a b) init).
Proof.
  intros Hab Hinit Hstep. unfold range.
  replace b with (a + Z.of_nat (Z.to_nat (b - a))) at 1 by lia.
  apply fold_range_invariant; [exact Hinit|].
  intros i acc Hi. apply Hstep. lia.
Qed.



Section GridFacts.

Variable S : Type.
Variable random : S -> Q * S.



End GridFacts.


(** ** The edge-aware sampler *)

Section EdgeAwareFacts.

Variable S : Type.
Variable random : S -> Q * S.

Lemma edgeAwareLoop_length (w h n : Z) (edgeMap : list Z) (ew : Q) :
  forall remaining pts s,
    Z.of_nat (List.length pts) <= Z.max 0 n ->
    Z.of_nat (List.length
                (fst (edgeAwareLoop S random remaining w h n edgeMap ew pts s)))
    <= Z.max 0 n.
Proof.
  induction remaining as [|r IH]; intros pts s Hlen; simpl; [exact Hlen|].
  destruct (Z.ltb_spec (Z.of_nat (List.length pts)) n) as [Hlt|Hge];
    [|exact Hlen].
  destruct (random s) as [u1 s1]. destruct (random s1) as [u2 s2].
  destruct (random s2) as [u3 s3]. apply IH.
  match goal with |- context [if ?c then _ else _] => destruct c end;
    [|exact Hlen].
  rewrite length_app. cbn [List.length]. lia.
Qed.

(** The edge-aware sampler never returns more points than the target, and
    returns none for a target of zero or less. *)
Theorem sampleEdgeAware_at_most (w h n : Z) (edgeMap : list Z) (ew : Q)
  (s : S) :
  Z.of_nat (List.length (fst (sampleEdgeAware S random w h n edgeMap ew s)))
  <= Z.max 0 n.
Proof.
  unfold sampleEdgeAware. apply edgeAwareLoop_length. simpl. lia.
Qed.

Hypothesis random_unit :
  forall s, (0 <= fst (random s))%Q /\ (fst (random s) < 1)%Q.

Lemma edgeAwareLoop_uniform (w h n : Z) (edgeMap : list Z) (ew : Q) :
  0 < w -> 0 < h ->
  Z.of_nat (List.length edgeMap) = w * h ->
  (ew == 0)%Q ->
  forall remaining pts s,
    Z.of_nat (List.length pts) <= n ->
    n - Z.of_nat (List.length pts) <= Z.of_nat remaining ->
    Z.of_nat (List.length
                (fst (edgeAwareLoop S random remaining w h n edgeMap ew pts s)))
    = n.
Proof.
  intros Hw Hh Hmap Hew.
  induction remaining as [|r IH]; intros pts s Hle Hrem;
    cbn [edgeAwareLoop]; [cbn [fst]; lia|].
  destruct (Z.ltb_spec (Z.of_nat (List.length pts)) n) as [Hlt|Hge];
    [|cbn [fst]; lia].
  pose proof (random_unit s) as [Ha0 Ha1].
  destruct (random s) as [u1 s1]. cbn [fst] in Ha0, Ha1.
  pose proof (random_unit s1) as [Hb0 Hb1].
  destruct (random s1) as [u2 s2]. cbn [fst] in Hb0, Hb1.
  pose proof (random_unit s2) as [Hc0 Hc1].
  destruct (random s2) as [u3 s3]. cbn [fst] in Hc0, Hc1.
  pose proof (floor_scaled u1 w Ha0 Ha1 Hw) as Hx.
  pose proof (floor_scaled u2 h Hb0 Hb1 Hh) as Hy.
  set (x := JsMath.floor (u1 * inject_Z w)%Q) in *.
  set (y := JsMath.floor (u2 * inject_Z h)%Q) in *.
  destruct (aget_defined edgeMap (y * w + x)) as [e He]; [rewrite Hmap; nia|].
  rewrite He.
  destruct (Qlt_le_dec u3 (1 - ew + ew * (inject_Z e / 255))) as [_|Hbad].
  - apply IH; rewrite length_app; cbn [List.length]; lia.
  - exfalso. rewrite Hew in Hbad.
    assert (E : (1 - 0 + 0 * (inject_Z e / 255) == 1)%Q) by ring.
    rewrite E in Hbad. apply (Qlt_irrefl 1). now apply Qle_lt_trans with u3.
Qed.

(** With an edge weight of 0 every draw is accepted: for a canvas of
    positive size, an edge map of [width * height] entries and a target
    [n >= 0], the sampler returns exactly [n] points. *)
Theorem sampleEdgeAware_uniform (w h n : Z) (edgeMap : list Z) (ew : Q)
  (s : S) :
  0 < w -> 0 < h -> 0 <= n ->
  Z.of_nat (List.length edgeMap) = w * h ->
  (ew == 0)%Q ->
  Z.of_nat (List.length (fst (sampleEdgeAware S random w h n edgeMap ew s)))
  = n.
Proof.
  intros Hw Hh Hn Hmap Hew. unfold sampleEdgeAware.
  apply edgeAwareLoop_uniform; try assumption; simpl; lia.
Qed.

Lemma edgeAwareLoop_flat (w h n : Z) (edgeMap : list Z) (ew : Q) :
  Forall (fun e => e = 0) edgeMap ->
  (ew == 1)%Q ->
  forall remaining pts s,
    fst (edgeAwareLoop S random remaining w h n edgeMap ew pts s) = pts.
Proof.
  intros Hmap Hew.
  induction remaining as [|r IH]; intros pts s; simpl; [reflexivity|].
  destruct (Z.of_nat (List.length pts) <? n); [|reflexivity].
  destruct (random s) as [u1 s1]. destruct (random s1) as [u2 s2].
  pose proof (random_unit s2) as [Hc0 _].
  destruct (random s2) as [u3 s3]. cbn [fst] in Hc0.
  destruct (aget edgeMap _) as [e|] eqn:He; [|apply IH].
  apply aget_In in He. rewrite Forall_forall in Hmap.
  rewrite (Hmap e He).
  destruct (Qlt_le_dec u3 (1 - ew + ew * (inject_Z 0 / 255))) as [Hbad|_];
    [|apply IH].
  exfalso. rewrite Hew in Hbad.
  assert (E : (1 - 1 + 1 * (inject_Z 0 / 255) == 0)%Q) by reflexivity.
  rewrite E in Hbad. apply (Qlt_irrefl 0). now apply Qle_lt_trans with u3.
Qed.

(** The same loop started without points: nothing is accepted, and every
    attempt that remains is made, three draws each. *)
Lemma edgeAwareLoop_exhausts (w h n : Z) (edgeMap : list Z) (ew : Q) :
  Forall (fun e => e = 0) edgeMap ->
  (ew == 1)%Q ->
  0 < n ->
  forall remaining s,
    edgeAwareLoop S random remaining w h n edgeMap ew [] s
    = ([], draws S random (3 * remaining) s).
Proof.
  intros Hmap Hew Hn.
  induction remaining as [|r IH]; intro s; [reflexivity|].
  replace (3 * Datatypes.S r)%nat
    with (Datatypes.S (Datatypes.S (Datatypes.S (3 * r)))) by lia.
  cbn [edgeAwareLoop draws List.length].
  destruct (Z.ltb_spec (Z.of_nat 0) n) as [_|Hge]; [|simpl in Hge; lia].
  destruct (random s) as [u1 s1]. cbn [snd].
  destruct (random s1) as [u2 s2]. cbn [snd].
  pose proof (random_unit s2) as [Hc0 _].
  destruct (random s2) as [u3 s3]. cbn [fst snd] in *.
  destruct (aget edgeMap _) as [e|] eqn:He; [|apply IH].
  apply aget_In in He. rewrite Forall_forall in Hmap.
  rewrite (Hmap e He).
  destruct (Qlt_le_dec u3 (1 - ew + ew * (inject_Z 0 / 255))) as [Hbad|_];
    [|apply IH].
  exfalso. rewrite Hew in Hbad.
  assert (E : (1 - 1 + 1 * (inject_Z 0 / 255) == 0)%Q) by reflexivity.
  rewrite E in Hbad. apply (Qlt_irrefl 0). now apply Qle_lt_trans with u3.
Qed.

(** With an edge weight of 1 over an all-zero edge map (a picture without
    gradient) the acceptance probability is 0: the sampler makes all its
    [numPoints * 10] attempts (none for a target of 0 or less), three
    draws of the generator each, and returns no point. *)
Theorem sampleEdgeAware_flat (w h n : Z) (edgeMap : list Z) (ew : Q) (s : S) :
  Forall (fun e => e = 0) edgeMap ->
  (ew == 1)%Q ->
  sampleEdgeAware S random w h n edgeMap ew s
  = ([], draws S random (3 * Z.to_nat (n * 10)) s).
Proof.
  intros Hmap Hew. unfold sampleEdgeAware.
  destruct (Z_lt_le_dec 0 n) as [Hn|Hn].
  - now apply edgeAwareLoop_exhausts.
  - replace (Z.to_nat (n * 10)) with 0%nat by lia. reflexivity.
Qed.

End EdgeAwareFacts.

Lemma sampleEdgeAware_uniform_witness :
  Z.of_nat (List.length
              (fst (sampleEdgeAware Q (createPRNG Ref.platform) 4 4 5
                      (createEdgeMap Demo.red4Data) 0%Q 42%Q)))
  = 5.
Proof.
  apply (sampleEdgeAware_uniform Q (createPRNG Ref.platform)
           (createPRNG_unit Ref.platform) 4 4 5
           (createEdgeMap Demo.red4Data) 0%Q 42%Q); try lia.
  - vm_compute. reflexivity.
  - reflexivity.
Defined.

Lemma sampleEdgeAware_flat_witness :
  sampleEdgeAware Q (createPRNG Ref.platform) 4 4 5
    (createEdgeMap Demo.red4Data) 1%Q 42%Q
  = ([], draws Q (createPRNG Ref.platform) (3 * Z.to_nat (5 * 10)) 42%Q).
Proof.
  apply (sampleEdgeAware_flat Q (createPRNG Ref.platform)
           (createPRNG_unit Ref.platform) 4 4 5
           (createEdgeMap Demo.red4Data) 1%Q 42%Q).
  - vm_compute. repeat constructor.
  - reflexivity.
Defined.

(** ** The shape of the edge map *)

Lemma replace_nth_length {A : Type} (n : nat) (v : A) (l : list A) :
  List.length (replace_nth n v l) = List.length l.
Proof.
  revert n. induction l as [|x rest IH]; intros [|n]; simpl; auto.
Qed.

Lemma ta_set_length (arr : list Z) (i v : Z) :
  List.length (ta_set arr i v) = List.length arr.
Proof.
  unfold ta_set. destruct (i <? 0); [reflexivity|]. apply replace_nth_length.
Qed.

Lemma replace_nth_other {A : Type} (n k : nat) (v d : A) (l : list A) :
  k <> n -> nth k (replace_nth n v l) d = nth k l d.
Proof.
  revert n k. induction l as [|x rest IH]; intros [|n] [|k] Hne; simpl;
    try reflexivity; try congruence.
  apply IH. congruence.
Qed.

Lemma replace_nth_Forall {A : Type} (Good : A -> Prop) (n : nat) (v : A)
  (l : list A) :
  Good v -> Forall Good l -> Forall Good (replace_nth n v l).
Proof.
  intros Hv Hl. apply Forall_forall. intros x Hx.
  apply replace_nth_In in Hx as [->|Hx]; [exact Hv|].
  rewrite Forall_forall in Hl. now apply Hl.
Qed.

Lemma ta_set_Forall (Good : Z -> Prop) (arr : list Z) (i v : Z) :
  Good v -> Forall Good arr -> Forall Good (ta_set arr i v).
Proof.
  intros Hv Ha. unfold ta_set. destruct (i <? 0); [exact Ha|].
  now apply replace_nth_Forall.
Qed.

Lemma storeMagnitude_byte (n : Z) : 0 <= n -> byte (storeMagnitude n).
Proof.
  intro Hn. unfold byte, storeMagnitude.
  pose proof (Z.sqrt_nonneg (4 * n)).
  assert (0 <= (Z.sqrt (4 * n) + 1) / 2) by (apply Z.div_pos; lia).
  lia.
Qed.

Lemma normalizeByte_byte (e maxSq : Z) :
  0 <= e -> 0 < maxSq -> byte (normalizeByte e maxSq).
Proof.
  intros He Hm. unfold byte, normalizeByte.
  destruct (Z.leb_spec e 0); [lia|].
  destruct (Z.leb_spec maxSq (e * e)); [lia|].
  set (x := 260100 * e * e / maxSq).
  assert (Hx0 : 0 <= x) by (apply Z.div_pos; nia).
  assert (Hx1 : x < 510 * 510).
  { apply Z.div_lt_upper_bound; nia. }
  pose proof (Z.sqrt_nonneg x) as Hs0.
  assert (Hs1 : Z.sqrt x < 510) by (apply Z.sqrt_lt_square; lia).
  set (t := Z.sqrt x) in *.
  pose proof (Z.div_mod t 2 ltac:(lia)). pose proof (Z.mod_pos_bound t 2 ltac:(lia)).
  destruct (Z.even t); [lia|].
  destruct (_ =? _); [|lia].
  destruct (Z.even (t / 2)); lia.
Qed.

Lemma sobelAt_square_nonneg (w : Z) (gray : list Z) (x y : Z) :
  0 <= fst (sobelAt w gray x y) * fst (sobelAt w gray x y)
       + snd (sobelAt w gray x y) * snd (sobelAt w gray x y).
Proof. nia. Qed.

(** The state of the two loops: a map of [width * height] bytes, zero on
    the ring, and a maximum that is not negative. *)
Lemma edgeRows_shape (w h : Z) (gray : list Z) :
  List.length (fst (edgeRows w h gray)) = Z.to_nat (w * h)
  /\ Forall byte (fst (edgeRows w h gray))
  /\ (forall x y, onRing w h x y ->
                  nth (Z.to_nat (y * w + x)) (fst (edgeRows w h gray)) 0 = 0).
Proof.
  unfold edgeRows.
  set (Inv := fun st : list Z * Z =>
                List.length (fst st) = Z.to_nat (w * h)
                /\ Forall byte (fst st)
                /\ (forall x y, onRing w h x y ->
                                nth (Z.to_nat (y * w + x)) (fst st) 0 = 0)).
  apply (fold_left_invariant_In Inv).
  - intros st y Hy Hst. apply range_In in Hy.
    apply (fold_left_invariant_In Inv); [|exact Hst].
    clear st Hst. intros [edgeMap maxSq] x Hx (Hlen & Hb & Hring).
    apply range_In in Hx. unfold edgeStep.
    pose proof (sobelAt_square_nonneg w gray x y) as Hn.
    destruct (sobelAt w gray x y) as [gx gy]. cbn [fst snd] in *.
    subst Inv. cbn [fst snd]. split; [|split].
    + now rewrite ta_set_length.
    + apply ta_set_Forall; [now apply storeMagnitude_byte | exact Hb].
    + intros x' y' Hr. pose proof Hr as (Hx' & Hy' & Hside).
      unfold ta_set. destruct (Z.ltb_spec (y * w + x) 0); [now apply Hring|].
      rewrite replace_nth_other; [now apply Hring|].
      intro E. assert (E' : y' * w + x' = y * w + x) by nia.
      assert (y' = y) by nia. assert (x' = x) by nia. lia.
  - subst Inv. cbn [fst]. split; [apply repeat_length|]. split.
    + apply Forall_forall. intros z Hz. apply repeat_spec in Hz. subst z.
      unfold byte. lia.
    + intros x y _. apply nth_repeat.
Qed.

(** The edge map has [width * height] entries, each in [0, 255], and the
    one-pixel ring around the image is zero. *)
Theorem createEdgeMap_shape (img : ImageData) :
  List.length (createEdgeMap img) = Z.to_nat (width img * height img)
  /\ Forall byte (createEdgeMap img)
  /\ (forall x y, onRing (width img) (height img) x y ->
                  nth (Z.to_nat (y * width img + x)) (createEdgeMap img) 0 = 0).
Proof.
  unfold createEdgeMap.
  pose proof (edgeRows_shape (width img) (height img) (grayscaleOf img))
    as (Hlen & Hb & Hring).
  destruct (edgeRows (width img) (height img) (grayscaleOf img))
    as [edgeMap maxSq]. cbn [fst] in *.
  destruct (Z.gtb_spec maxSq 0) as [Hpos|_]; [|now repeat split].
  split; [now rewrite length_map|]. split.
  - apply Forall_map. eapply Forall_impl; [|exact Hb].
    intros e He. apply normalizeByte_byte; [apply He | lia].
  - intros x y Hr.
    pose proof (map_nth (fun e => normalizeByte e maxSq) edgeMap 0
                  (Z.to_nat (y * width img + x))) as E.
    cbn beta in E. change (normalizeByte 0 maxSq) with 0 in E at 1.
    rewrite E, (Hring x y Hr). reflexivity.
Qed.

(** ** Images of one colour *)

Lemma replace_nth_same {A : Type} (n : nat) (v d : A) (l : list A) :
  (n < List.length l)%nat -> nth n (replace_nth n v l) d = v.
Proof.
  revert n. induction l as [|x rest IH]; intros [|n] Hn; simpl in *;
    try lia; [reflexivity|].
  apply IH. lia.
Qed.

Lemma pixelAt_channels (d : list Z) (i r g b : Z) :
  pixelAt d i = Some (r, g, b) ->
  aget d i = Some r /\ aget d (i + 1) = Some g /\ aget d (i + 2) = Some b.
Proof.
  unfold pixelAt.
  destruct (aget d i), (aget d (i + 1)), (aget d (i + 2)); try discriminate.
  intros [= -> -> ->]. auto.
Qed.

Lemma aget_length {A : Type} (l : list A) (i : Z) (x : A) :
  aget l i = Some x -> 0 <= i < Z.of_nat (List.length l).
Proof.
  unfold aget. destruct (Z.ltb_spec i 0) as [Hneg|Hpos]; [discriminate|].
  intro Hx.
  assert (Hn : nth_error l (Z.to_nat i) <> None) by congruence.
  apply nth_error_Some in Hn. lia.
Qed.

(** The grayscale picture of an image of one colour has one value. *)
Lemma grayscaleOf_solid (img : ImageData) (r g b : Z) :
  solidColour img r g b ->
  forall k, 0 <= k < width img * height img ->
    nth (Z.to_nat k) (grayscaleOf img) 0
    = JsMath.toUint8Clamped (luminance r g b).
Proof.
  intros Hsolid k Hk. unfold grayscaleOf.
  set (N := width img * height img) in *.
  set (g0 := JsMath.toUint8Clamped (luminance r g b)).
  set (top := (Z.of_nat (List.length (data img)) + 3) / 4).
  assert (Htop : N <= top).
  { assert (Hlast : 0 <= N - 1 < N) by lia.
    apply Hsolid, pixelAt_channels in Hlast as (_ & _ & Hb).
    apply aget_length in Hb. subst top.
    apply Z.div_le_lower_bound; lia. }
  set (Inv := fun (i : Z) (gray : list Z) =>
                List.length gray = Z.to_nat N
                /\ forall j, 0 <= j < N -> j < i ->
                             nth (Z.to_nat j) gray 0 = g0).
  assert (H : Inv top (fold_left (grayscaleStep (data img)) (range 0 top)
                         (repeat 0 (Z.to_nat N)))).
  { apply fold_range; [lia| |].
    - split; [apply repeat_length | intros; lia].
    - intros i gray Hi [Hlen Hdone].
      assert (Hstep : exists v, grayscaleStep (data img) gray i
                                = ta_set gray i v
                                /\ (i < N -> v = g0)).
      { unfold grayscaleStep. destruct (Z.ltb_spec i N) as [Hin|Hout].
        - assert (Hpx : 0 <= i < N) by lia.
          apply Hsolid, pixelAt_channels in Hpx as (-> & -> & ->).
          now exists g0.
        - destruct (aget (data img) (4 * i)), (aget (data img) (4 * i + 1)),
                   (aget (data img) (4 * i + 2)); eexists;
            (split; [reflexivity | lia]). }
      destruct Hstep as (v & -> & Hv). split.
      + now rewrite ta_set_length.
      + intros j Hj Hji. unfold ta_set.
        destruct (Z.ltb_spec i 0); [lia|].
        destruct (Z.eq_dec j i) as [->|Hne].
        * rewrite replace_nth_same by lia. apply Hv. lia.
        * rewrite replace_nth_other by lia. apply Hdone; lia. }
  destruct H as [_ H]. apply H; lia.
Qed.

(** Where the nine values under the kernels are equal, both gradients
    are 0. *)
Lemma sobelAt_level (w : Z) (gray : list Z) (x y g0 : Z) :
  (forall kx ky, -1 <= kx <= 1 -> -1 <= ky <= 1 ->
     nth (Z.to_nat ((y + ky) * w + (x + kx))) gray 0 = g0) ->
  sobelAt w gray x y = (0, 0).
Proof.
  intro Hg. unfold sobelAt. change (range (-1) 2) with [-1; 0; 1].
  cbn [fold_left].
  rewrite !Hg by lia. simpl. f_equal; lia.
Qed.

Lemma storeMagnitude_zero : storeMagnitude 0 = 0.
Proof. reflexivity. Qed.

Lemma createEdgeMap_level (img : ImageData) (r g b : Z) :
  solidColour img r g b ->
  createEdgeMap img = repeat 0 (Z.to_nat (width img * height img)).
Proof.
  intro Hsolid. apply createEdgeMap_flat. unfold maxGradientSq, edgeRows.
  set (w := width img). set (h := height img).
  set (Inv := fun st : list Z * Z => snd st = 0).
  apply (fold_left_invariant_In Inv); [|reflexivity].
  intros st y Hy Hst. apply range_In in Hy.
  apply (fold_left_invariant_In Inv); [|exact Hst].
  clear st Hst. intros [edgeMap maxSq] x Hx Hst. apply range_In in Hx.
  subst Inv. cbn [snd] in *. subst maxSq. unfold edgeStep.
  rewrite (sobelAt_level w (grayscaleOf img) x y
             (JsMath.toUint8Clamped (luminance r g b))).
  - reflexivity.
  - intros kx ky Hkx Hky. apply (grayscaleOf_solid img r g b Hsolid).
    fold w h. nia.
Qed.

(** An image of one colour has no gradient: the edge map is all zero. *)
Theorem createEdgeMap_solid (img : ImageData) (r g b : Z) :
  solidColour img r g b ->
  createEdgeMap img = repeat 0 (Z.to_nat (width img * height img)).
Proof. exact (createEdgeMap_level img r g b). Qed.

Lemma red4Data_solid : solidColour Demo.red4Data 255 0 0.
Proof.
  intros k Hk. change (width Demo.red4Data * height Demo.red4Data) with 16 in Hk.
  assert (Hcases : In k (range 0 16)) by (apply range_In; lia).
  vm_compute in Hcases.
  repeat (destruct Hcases as [<-|Hcases]; [reflexivity|]).
  destruct Hcases.
Qed.

Lemma createEdgeMap_solid_witness :
  solidColour Demo.red4Data 255 0 0
  /\ createEdgeMap Demo.red4Data = repeat 0 16.
Proof.
  split; [exact red4Data_solid|].
  exact (createEdgeMap_solid Demo.red4Data 255 0 0 red4Data_solid).
Defined.

Lemma round_inject_Z (z : Z) : JsMath.round (inject_Z z) = z.
Proof.
  unfold JsMath.round, Qfloor, Qplus, inject_Z. cbn [Qnum Qden].
  change (Z.pos (1 * 2)) with 2.
  pose proof (Z.div_mod (z * 2 + 1 * 1) 2 ltac:(lia)).
  pose proof (Z.mod_pos_bound (z * 2 + 1 * 1) 2 ltac:(lia)). lia.
Qed.

Lemma round_mean_exact (c : Q) (n z : Z) :
  0 < n -> (c == inject_Z n * inject_Z z)%Q ->
  JsMath.round (c / inject_Z n) = z.
Proof.
  intros Hn Hc. transitivity (JsMath.round (inject_Z z));
    [|apply round_inject_Z]. unfold JsMath.round.
  apply Qfloor_comp. rewrite Hc.
  assert (Hq : ~ (inject_Z n == 0)%Q).
  { unfold Qeq. simpl. lia. }
  field. exact Hq.
Qed.

Lemma colourStep_solid (P : Platform) (v : Vertices) (img : ImageData)
  (r g b x y : Z) (acc : Acc) :
  solidColour img r g b ->
  0 <= x < width img -> 0 <= y < height img ->
  sumsOf r g b acc -> sumsOf r g b (colourStep P v img RGB y acc x).
Proof.
  intros Hsolid Hx Hy (Hn & c1 & c2 & c3 & Hacc & H1 & H2 & H3).
  unfold colourStep. destruct (insideTriangle v x y).
  - rewrite Hacc, (Z.mul_comm (y * width img + x) 4), Hsolid by nia.
    split; [cbn [snd]; lia|].
    exists (c1 + inject_Z r)%Q, (c2 + inject_Z g)%Q, (c3 + inject_Z b)%Q.
    cbn [fst snd]. split; [reflexivity|].
    split; [|split]; rewrite inject_Z_plus.
    + rewrite H1. ring.
    + rewrite H2. ring.
    + rewrite H3. ring.
  - split; [exact Hn|]. now exists c1, c2, c3.
Qed.

Lemma colourSums_solid (P : Platform) (v : Vertices) (img : ImageData)
  (r g b : Z) :
  solidColour img r g b -> sumsOf r g b (colourSums P v img RGB).
Proof.
  intro Hsolid. unfold colourSums.
  pose proof (boundingBox_inside v img) as (H1 & H2 & H3 & H4).
  destruct (boundingBox v img) as [[[minX maxX] minY] maxY].
  cbn [fst snd] in H1, H2, H3, H4.
  apply (fold_left_invariant_In (sumsOf r g b)).
  - intros acc y Hy Hacc. apply range_In in Hy.
    apply (fold_left_invariant_In (sumsOf r g b)); [|exact Hacc].
    intros acc' x Hx. apply range_In in Hx.
    apply colourStep_solid; [exact Hsolid | lia | lia].
  - split; [simpl; lia|]. exists 0%Q, 0%Q, 0%Q. cbn [fst snd].
    split; [reflexivity|]. split; [|split]; ring.
Qed.

(** Over an image of one colour, the RGB average of a triangle the filter
    keeps is that colour. *)
Lemma getAverageColor_solid (P : Platform) (v : Vertices) (img : ImageData)
  (r g b : Z) :
  solidColour img r g b ->
  kept (width img) (height img) v = true ->
  getAverageColor P v img RGB = Some (r, g, b).
Proof.
  intros Hsolid Hk.
  pose proof (kept_box img v Hk) as (Hx & Hxw & Hy & Hyh).
  pose proof (colourSums_solid P v img r g b Hsolid)
    as (Hn & c1 & c2 & c3 & Hacc & H1 & H2 & H3).
  unfold getAverageColor.
  destruct (boundingBox v img) as [[[minX maxX] minY] maxY].
  cbn [fst snd] in Hx, Hxw, Hy, Hyh.
  destruct (colourSums P v img RGB) as [sums n]. cbn [fst snd] in *.
  subst sums. destruct (Z.eqb_spec n 0) as [->|Hne].
  - rewrite (Z.mul_comm _ 4). apply Hsolid.
    pose proof (Z.div_mod (minX + maxX) 2 ltac:(lia)).
    pose proof (Z.mod_pos_bound (minX + maxX) 2 ltac:(lia)).
    pose proof (Z.div_mod (minY + maxY) 2 ltac:(lia)).
    pose proof (Z.mod_pos_bound (minY + maxY) 2 ltac:(lia)).
    assert (Hcx : 0 <= (minX + maxX) / 2 < width img) by lia.
    assert (Hcy : 0 <= (minY + maxY) / 2 < height img) by lia.
    generalize dependent ((minX + maxX) / 2).
    generalize dependent ((minY + maxY) / 2). intros. nia.
  - rewrite (round_mean_exact c1 n r), (round_mean_exact c2 n g),
      (round_mean_exact c3 n b) by (assumption || lia).
    reflexivity.
Qed.

(** A picture of one colour gives triangles of that colour: with the RGB
    colour space, whatever the sampler and the triangulation, every
    triangle of the result has the colour of the picture. *)
Theorem solid_image_triangles (P : Platform) (fuel : nat)
  (element : HTMLImageElement) (name : string) (settings : Settings)
  (out : LowPolyOutput) (img : ImageData) (r g b : Z) :
  generateLowPolyData P fuel element name settings = Ok out ->
  getScaledImageData P element (maxSize settings) = Ok img ->
  solidColour img r g b ->
  colorSpace settings = RGB ->
  Forall (fun t => avg_color t = Some (r, g, b)) (triangles out).
Proof.
  intros Hrun Himg Hsolid Hcs. apply Forall_forall. intros t Ht.
  destruct (generate_colours P fuel element name settings out img
              Hrun Himg t Ht) as [Hk ->].
  rewrite Hcs. now apply getAverageColor_solid.
Qed.

Lemma solid_image_triangles_witness :
  Demo.gridRun = Ok Demo.gridOutput
  /\ getScaledImageData Ref.platform Demo.red4 (maxSize Demo.gridSettings)
     = Ok Demo.red4Data
  /\ solidColour Demo.red4Data 255 0 0
  /\ colorSpace Demo.gridSettings = RGB
  /\ Forall (fun t => avg_color t = Some (255, 0, 0))
       (triangles Demo.gridOutput).
Proof.
  assert (Hrun : generateLowPolyData Ref.platform 0 Demo.red4 "input.png"
                   Demo.gridSettings = Ok Demo.gridOutput)
    by (vm_compute; reflexivity).
  assert (Himg : getScaledImageData Ref.platform Demo.red4
                   (maxSize Demo.gridSettings) = Ok Demo.red4Data)
    by (vm_compute; reflexivity).
  split; [exact Hrun|]. split; [exact Himg|].
  split; [exact red4Data_solid|]. split; [reflexivity|].
  exact (solid_image_triangles Ref.platform 0 Demo.red4 "input.png"
           Demo.gridSettings Demo.gridOutput Demo.red4Data 255 0 0
           Hrun Himg red4Data_solid eq_refl).
Defined.

(** ** The adjacency step, in full *)

Lemma slot_cons (w h : Z) (v0 : Vertices) (rest : list Vertices)
  (i cur k : Z) (v : Vertices) (c : Z) :
  slot w h (v0 :: rest) i cur k v c
  <-> (k = i /\ v = v0 /\ kept w h v0 = true /\ c = cur)
      \/ slot w h rest (i + 1) (if kept w h v0 then cur + 1 else cur) k v c.
Proof.
  unfold slot. split.
  - intros (Hik & Hn & Hk & Hc). destruct (Z.eq_dec k i) as [->|Hne].
    + left. rewrite Z.sub_diag in Hn, Hc. cbn in Hn, Hc.
      injection Hn as <-. repeat split; auto. lia.
    + right.
      replace (Z.to_nat (k - i)) with (Datatypes.S (Z.to_nat (k - (i + 1))))
        in Hn, Hc by lia.
      cbn [nth_error firstn filter] in Hn, Hc.
      split; [lia|]. split; [exact Hn|]. split; [exact Hk|].
      destruct (kept w h v0); cbn [List.length] in Hc; lia.
  - intros [(-> & -> & Hk & ->)|(Hik & Hn & Hk & Hc)].
    + rewrite Z.sub_diag. cbn. repeat split; auto; lia.
    + replace (Z.to_nat (k - i)) with (Datatypes.S (Z.to_nat (k - (i + 1))))
        by lia.
      cbn [nth_error firstn filter].
      split; [lia|]. split; [exact Hn|]. split; [exact Hk|].
      destruct (kept w h v0); cbn [List.length]; lia.
Qed.







Section NeighborFacts.

Variable P : Platform.
Variable img : ImageData.
Variable cs : ColorSpace.

(** Every triangle the loop adds is the polygon of one slot. *)
Lemma filterLoop_slots (polys : list Vertices) :
  forall i st t,
    In t (fs_triangles (filterLoop P img cs polys i st)) ->
    In t (fs_triangles st)
    \/ (neighbors t = []
        /\ exists k, slot (width img) (height img) polys i (fs_currentId st) k (vertices t) (id t)).
Proof.
  induction polys as [|v rest IH]; intros i st t Ht; cbn [filterLoop] in Ht.
  - now left.
  - pose proof (kept_unfold (width img) (height img) v) as Hk.
    destruct (someOutside (width img) (height img) v).
    + apply IH in Ht as [Ht|(Hn & k & Hs)]; [now left|].
      right. split; [exact Hn|]. exists k. apply slot_cons. right.
      now rewrite Hk.
    + destruct (JsMath.ltb (getArea v) 1).
      * apply IH in Ht as [Ht|(Hn & k & Hs)]; [now left|].
        right. split; [exact Hn|]. exists k. apply slot_cons. right.
        now rewrite Hk.
      * apply IH in Ht as [Ht|(Hn & k & Hs)]; cbn [fs_triangles fs_currentId] in *.
        -- apply in_app_or in Ht as [Ht|[<-|[]]]; [now left|].
           right. split; [reflexivity|]. exists i. apply slot_cons. left.
           cbn [vertices id]. auto.
        -- right. split; [exact Hn|]. exists k. apply slot_cons. right.
           now rewrite Hk.
Qed.




End NeighborFacts.






(** Without the adjacency step every triangle of a result has an empty
    list of neighbours. *)
Theorem neighbors_absent (P : Platform) (fuel : nat)
  (element : HTMLImageElement) (name : string) (settings : Settings)
  (out : LowPolyOutput) :
  generateLowPolyData P fuel element name settings = Ok out ->
  withNeighbors settings = false ->
  Forall (fun t => neighbors t = []) (triangles out).
Proof.
  intros Hrun Hwn.
  apply generate_Ok in Hrun as (img & sampled & _ & _ & _ & _ & Htri).
  cbv zeta in Htri. rewrite Hwn in Htri. rewrite Htri.
  apply Forall_forall. intros t Ht. unfold filtered in Ht.
  apply filterLoop_slots in Ht as [Hnone|[Hn _]]; [destruct Hnone | exact Hn].
Qed.

Lemma neighbors_absent_witness :
  generateLowPolyData Ref.platform 0 Demo.red4 "input.png" Demo.plainSettings
  = Ok Demo.plainOutput
  /\ withNeighbors Demo.plainSettings = false
  /\ triangles Demo.plainOutput <> []
  /\ Forall (fun t => neighbors t = []) (triangles Demo.plainOutput).
Proof.
  assert (Hrun : generateLowPolyData Ref.platform 0 Demo.red4 "input.png"
                   Demo.plainSettings = Ok Demo.plainOutput)
    by (vm_compute; reflexivity).
  split; [exact Hrun|]. split; [reflexivity|].
  split; [vm_compute; discriminate|].
  exact (neighbors_absent Ref.platform 0 Demo.red4 "input.png"
           Demo.plainSettings Demo.plainOutput Hrun eq_refl).
Defined.

(** ** The triangles of a result and the polygons of the triangulation *)

Lemma resolved_vertices (d : Delaunay) (m : IndexMap) (b : bool)
  (tris : list Triangle) :
  map vertices (if b then map (resolveNeighbors d m) tris else tris)
  = map vertices tris.
Proof.
  destruct b; [|reflexivity]. rewrite map_map. apply map_ext.
  apply resolveNeighbors_vertices.
Qed.



(** A picture of one colour, sampled by edges alone (an edge weight of 1):
    the sampler accepts no point, and the triangles of the result are the
    kept polygons of the triangulation of the four corners. *)
Theorem flat_picture_edge_aware (P : Platform) (fuel : nat)
  (element : HTMLImageElement) (name : string) (settings : Settings)
  (out : LowPolyOutput) (img : ImageData) (r g b : Z) :
  generateLowPolyData P fuel element name settings = Ok out ->
  getScaledImageData P element (maxSize settings) = Ok img ->
  solidColour img r g b ->
  sampler settings = EDGE_AWARE ->
  (edgeWeight settings == 1)%Q ->
  samplePoints P fuel img settings = Ok []
  /\ map vertices (triangles out)
     = filter (kept (width img) (height img))
         (trianglePolygons
            (d3_Delaunay_from P (corners (width img) (height img)))).
Proof.
  intros Hrun Himg Hsolid Hsampler Hew.
  assert (Hnone : samplePoints P fuel img settings = Ok []).
  { unfold samplePoints, sampleEdgeAware. rewrite Hsampler. f_equal.
    apply edgeAwareLoop_flat; [apply createPRNG_unit | | exact Hew].
    rewrite (createEdgeMap_level img r g b Hsolid).
    apply Forall_forall. intros e He. now apply repeat_spec in He. }
  split; [exact Hnone|].
  apply generate_Ok in Hrun as (img' & sampled & Himg' & Hs & _ & _ & Htri).
  rewrite Himg in Himg'. injection Himg' as <-.
  rewrite Hnone in Hs. injection Hs as <-.
  cbv zeta in Htri. rewrite Htri, resolved_vertices, addBorderPoints_nil.
  apply filtered_spec.
Qed.

Lemma flat_picture_edge_aware_witness :
  generateLowPolyData Ref.platform 0 Demo.red4 "input.png" Demo.edgeOnly
  = Ok Demo.edgeOnlyOutput
  /\ solidColour Demo.red4Data 255 0 0
  /\ samplePoints Ref.platform 0 Demo.red4Data Demo.edgeOnly = Ok []
  /\ map vertices (triangles Demo.edgeOnlyOutput)
     = filter (kept 4 4)
         (trianglePolygons (d3_Delaunay_from Ref.platform (corners 4 4))).
Proof.
  assert (Hrun : generateLowPolyData Ref.platform 0 Demo.red4 "input.png"
                   Demo.edgeOnly = Ok Demo.edgeOnlyOutput)
    by (vm_compute; reflexivity).
  assert (Himg : getScaledImageData Ref.platform Demo.red4
                   (maxSize Demo.edgeOnly) = Ok Demo.red4Data)
    by (vm_compute; reflexivity).
  split; [exact Hrun|]. split; [exact red4Data_solid|].
  exact (flat_picture_edge_aware Ref.platform 0 Demo.red4 "input.png"
           Demo.edgeOnly Demo.edgeOnlyOutput Demo.red4Data 255 0 0
           Hrun Himg red4Data_solid eq_refl (Qeq_refl 1)).
Defined.
